(** * cron-job-list: fan-out of [crontab -l] over SSH

    A shallow embedding of [main.go].  The program decodes a JSON list of
    destinations, starts one goroutine per destination, and each goroutine
    opens an SSH session, runs [crontab -l] and prints the result.

    The development has four layers:
    - [Fmt]: the part of Go's [fmt] package the program relies on;
    - [Json]: what [encoding/json] does when it decodes into [[]Dest];
    - the sequential code of [NewSession], [Close], [GetCrontab] and [call],
      in a small monad with a log of effects, panics and [defer];
    - the process: [main] and the interleaving of the goroutines. *)

From Stdlib Require Import ZArith Ascii String Lia.
From stdpp Require Import base tactics option list strings relations.

Set Warnings "-register-all".
Local Open Scope string_scope.
Local Open Scope list_scope.

(** ** Bytes and strings

    A Go [string] and a [[]byte] are both sequences of bytes; they are
    modelled by [string], a list of 8-bit characters. *)

Definition LF : ascii := "010"%char.

(** A line: the text followed by a newline byte. *)
Definition line (s : string) : string := s +:+ String LF "".

Definition byte_in (lo hi : nat) (c : ascii) : bool :=
  (lo <=? nat_of_ascii c)%nat && (nat_of_ascii c <=? hi)%nat.

Fixpoint contains_byte (c : ascii) (s : string) : bool :=
  match s with
  | "" => false
  | String c' s' => if Ascii.eqb c c' then true else contains_byte c s'
  end.

(** [is_prefix p s]: [s] starts with [p]. *)
Fixpoint is_prefix (p s : string) : bool :=
  match p, s with
  | "", _ => true
  | String a p', String b s' => Ascii.eqb a b && is_prefix p' s'
  | String _ _, "" => false
  end.

(** [is_infix p s]: [p] occurs in [s] (Go's [strings.Contains s p]). *)
Fixpoint is_infix (p s : string) : bool :=
  is_prefix p s ||
  match s with
  | "" => false
  | String _ s' => is_infix p s'
  end.

(** ** The fmt package, as far as the program uses it *)

Module Fmt.

(** *** Formatting with no operands

    [call] passes the remote output as the FORMAT of [fmt.Sprintf], with no
    operand.  [doPrintf] below is fmt's formatting loop specialised to an
    empty operand list.  The format is held as the suffix that is still to
    be read (the source keeps an index [i] into it). *)

(** [after_byte c s]: the rest of [s] when [s] starts with the byte [c]. *)
Definition after_byte (c : ascii) (s : string) : option string :=
  match s with
  | String c' s' => if Ascii.eqb c' c then Some s' else None
  | "" => None
  end.

Definition isFlag (c : ascii) : bool :=
  Ascii.eqb c "#" || Ascii.eqb c "0" || Ascii.eqb c "+" ||
  Ascii.eqb c "-" || Ascii.eqb c " ".

(** The flags only change how an operand is printed, so they are skipped. *)
Fixpoint skipFlags (s : string) : string :=
  match s with
  | String c s' => if isFlag c then skipFlags s' else s
  | "" => ""
  end.

Definition tooLarge (x : Z) : bool := (1000000 <? x)%Z || (x <? -1000000)%Z.

(** [parsenum]: (num, isnum, rest).  On overflow the source returns the
    end of the text as the new index. *)
Fixpoint parsenum_from (s : string) (num : Z) (isnum : bool)
  : Z * bool * string :=
  match s with
  | String c s' =>
      if byte_in 48 57 c then
        if tooLarge num then (0%Z, false, "")
        else parsenum_from s' (num * 10 + (Z.of_nat (nat_of_ascii c) - 48))%Z true
      else (num, isnum, s)
  | "" => (num, isnum, "")
  end.

Definition parsenum (s : string) : Z * bool * string :=
  parsenum_from s 0%Z false.

(** The text before the first "]" and the text after it. *)
Fixpoint splitBracket (s : string) : option (string * string) :=
  match s with
  | "" => None
  | String c s' =>
      if Ascii.eqb c "]" then Some ("", s')
      else match splitBracket s' with
           | Some (inside, after) => Some (String c inside, after)
           | None => None
           end
  end.

(** [parseArgNumber] on the text AFTER the opening bracket: (index, rest,
    ok).  Without a closing bracket, or with fewer than three bytes in all,
    only the opening bracket is consumed. *)
Definition parseArgNumber (s : string) : Z * string * bool :=
  if (String.length s <? 2)%nat then (0%Z, s, false)
  else match splitBracket s with
       | Some (inside, after) =>
           let '(width, ok, rest) := parsenum inside in
           if ok && (String.length rest =? 0)%nat
           then ((width - 1)%Z, after, true)
           else (0%Z, after, false)
       | None => (0%Z, s, false)
       end.

(** [argNumber] with [numArgs = 0]: (rest, found, goodArgNum).  No index
    is in range when there are no operands. *)
Definition argNumber (s : string) : string * bool * bool :=
  match after_byte "[" s with
  | Some s' =>
      let '(_, rest, ok) := parseArgNumber s' in (rest, ok, false)
  | None => (s, false, true)
  end.

Definition utf8_cont (lo hi : nat) (s : string) : option (ascii * string) :=
  match s with
  | String c s' => if byte_in lo hi c then Some (c, s') else None
  | "" => None
  end.

Definition RuneError : string :=
  String "239" (String "191" (String "189" "")).

(** [utf8.DecodeRuneInString] followed by [writeRune]: the bytes written
    for the rune at the head of [String c s], and the rest. *)
Definition decodeRune (c : ascii) (s : string) : string * string :=
  let n := nat_of_ascii c in
  if (n <? 128)%nat then (String c "", s)
  else
    let size_accept :=
      if byte_in 194 223 c then Some (2, 128, 191)
      else if (n =? 224)%nat then Some (3, 160, 191)
      else if (n =? 237)%nat then Some (3, 128, 159)
      else if byte_in 225 239 c then Some (3, 128, 191)
      else if (n =? 240)%nat then Some (4, 144, 191)
      else if byte_in 241 243 c then Some (4, 128, 191)
      else if (n =? 244)%nat then Some (4, 128, 143)
      else None in
    match size_accept with
    | None => (RuneError, s)
    | Some (size, lo, hi) =>
        if (String.length s <? size - 1)%nat then (RuneError, s)
        else
          match utf8_cont lo hi s with
          | None => (RuneError, s)
          | Some (c1, s1) =>
              if (size =? 2)%nat then (String c (String c1 ""), s1)
              else
                match utf8_cont 128 191 s1 with
                | None => (RuneError, s)
                | Some (c2, s2) =>
                    if (size =? 3)%nat
                    then (String c (String c1 (String c2 "")), s2)
                    else
                      match utf8_cont 128 191 s2 with
                      | None => (RuneError, s)
                      | Some (c3, s3) =>
                          (String c (String c1 (String c2 (String c3 ""))), s3)
                      end
                end
          end
    end.

Definition noVerbString : string := "%!(NOVERB)".
Definition badWidthString : string := "%!(BADWIDTH)".
Definition badPrecString : string := "%!(BADPREC)".

Definition badArgNum (verb : string) : string := "%!" +:+ verb +:+ "(BADINDEX)".
Definition missingArg (verb : string) : string := "%!" +:+ verb +:+ "(MISSING)".

(** The width of a verb: (text written, rest, afterIndex, goodArgNum).
    A star asks for an operand, and there is none. *)
Definition doWidth (s : string) (afterIndex good : bool)
  : string * string * bool * bool :=
  match after_byte "*" s with
  | Some s' => (badWidthString, s', false, good)
  | None =>
      let '(_, widPresent, s') := parsenum s in
      ("", s', afterIndex, good && negb (afterIndex && widPresent))
  end.

(** The precision of a verb, if a dot comes next and is not the last byte
    of the format (the source tests [i+1 < end]): a dot that ends the format
    is left to be read as the verb. *)
Definition doPrecision (out s : string) (afterIndex good : bool)
  : string * string * bool * bool :=
  match after_byte "." s with
  | Some (String _ _ as s') =>
      let good := good && negb afterIndex in
      let '(s', afterIndex, good') := argNumber s' in
      let good := good && good' in
      match after_byte "*" s' with
      | Some s'' => (out +:+ badPrecString, s'', false, good)
      | None => let '(_, _, s'') := parsenum s' in (out, s'', afterIndex, good)
      end
  | _ => (out, s, afterIndex, good)
  end.

(** The argument index allowed just before the verb. *)
Definition doIndex (s : string) (afterIndex good : bool) : string * bool :=
  if afterIndex then (s, good)
  else let '(s', _, good') := argNumber s in (s', good && good').

(** One verb: [s] is the format after the percent sign; the result is the
    text written and the format left to read. *)
Definition doVerb (s : string) : string * string :=
  let '(s, afterIndex, good) := argNumber (skipFlags s) in
  let '(out, s, afterIndex, good) := doWidth s afterIndex good in
  let '(out, s, afterIndex, good) := doPrecision out s afterIndex good in
  let '(s, good) := doIndex s afterIndex good in
  match s with
  | "" => (out +:+ noVerbString, "")
  | String c s' =>
      let '(verb, rest) := decodeRune c s' in
      if Ascii.eqb c "%" then (out +:+ "%", rest)
      else if negb good then (out +:+ badArgNum verb, rest)
      else (out +:+ missingArg verb, rest)
  end.

(** The formatting loop.  Every verb consumes its percent sign, so the
    length of the format (plus one) is enough fuel; see [Sprintf_cons]. *)
Fixpoint doPrintf (fuel : nat) (format : string) : string :=
  match fuel with
  | O => ""
  | S fuel =>
      match format with
      | "" => ""
      | String c s =>
          if Ascii.eqb c "%" then
            let '(out, rest) := doVerb s in out +:+ doPrintf fuel rest
          else String c (doPrintf fuel s)
      end
  end.

(** [fmt.Sprintf(format)] with no operand. *)
Definition Sprintf (format : string) : string :=
  doPrintf (S (String.length format)) format.

End Fmt.

(** ** Errors

    A Go [error] is modelled by its text ([err.Error()]); a nil error is
    [None] where the source has a value of type [error]. *)

Definition error := string.

(** ** The configuration file: encoding/json into [[]Dest] *)

Record Dest := mkDest { Host : string; User : string }.

Module Json.

(** A JSON value as the scanner delivers it (object keys in file order,
    duplicates kept). *)
Inductive value :=
| Null
| Bool (b : bool)
| Number (n : string)
| Str (s : string)
| Array (xs : list value)
| Object (fields : list (string * value)).

Definition kind (v : value) : string :=
  match v with
  | Null => "null" | Bool _ => "bool" | Number _ => "number"
  | Str _ => "string" | Array _ => "array" | Object _ => "object"
  end.

(** The text of a type error; [field] is the field of [Dest] being decoded,
    if any. *)
Definition UnmarshalTypeError (v : value) (field : option string)
    (target : string) : error :=
  match field with
  | Some f =>
      "json: cannot unmarshal " +:+ kind v +:+ " into Go struct field Dest." +:+
      f +:+ " of type " +:+ target
  | None =>
      "json: cannot unmarshal " +:+ kind v +:+ " into Go value of type " +:+ target
  end.

Definition upper (c : ascii) : ascii :=
  if byte_in 97 122 c then ascii_of_nat (nat_of_ascii c - 32) else c.

(** Case folding of an object key.  Besides the ASCII letters, two
    characters fold to an ASCII letter: the long s (bytes 197 191) to S and
    the Kelvin sign (bytes 226 132 170) to K.  Folding among the other
    non-ASCII characters is left out: the result is only compared with
    the folded ASCII names of the fields of [Dest]. *)
Fixpoint foldName (s : string) : string :=
  match s with
  | "" => ""
  | String c s1 =>
      match s1 with
      | String c1 s2 =>
          if Ascii.eqb c "197" && Ascii.eqb c1 "191"
          then String "S" (foldName s2)
          else
            match s2 with
            | String c2 s3 =>
                if Ascii.eqb c "226" && Ascii.eqb c1 "132" && Ascii.eqb c2 "170"
                then String "K" (foldName s3)
                else String (upper c) (foldName s1)
            | "" => String (upper c) (foldName s1)
            end
      | "" => String (upper c) ""
      end
  end.

(** A key selects the field tagged [name] when it is equal to the tag up
    to case. *)
Definition selects (name key : string) : bool :=
  String.eqb (foldName key) (foldName name).

(** One member of an object decoded into a [Dest]: a string is stored,
    [null] leaves the field as it is, any other value is a type error; a
    key that selects no field is skipped. *)
Definition setField (d : Dest) (key : string) (v : value) : Dest + error :=
  if selects "host" key then
    match v with
    | Str s => inl {| Host := s; User := User d |}
    | Null => inl d
    | _ => inr (UnmarshalTypeError v (Some "host") "string")
    end
  else if selects "user" key then
    match v with
    | Str s => inl {| Host := Host d; User := s |}
    | Null => inl d
    | _ => inr (UnmarshalTypeError v (Some "user") "string")
    end
  else inl d.

Fixpoint setFields (d : Dest) (fields : list (string * value)) : Dest + error :=
  match fields with
  | [] => inl d
  | (key, v) :: rest =>
      match setField d key v with
      | inl d' => setFields d' rest
      | inr e => inr e
      end
  end.

(** An element of the array decoded into a fresh (zero) [Dest]. *)
Definition unmarshalDest (v : value) : Dest + error :=
  match v with
  | Null => inl (mkDest "" "")
  | Object fields => setFields (mkDest "" "") fields
  | _ => inr (UnmarshalTypeError v None "main.Dest")
  end.

Fixpoint unmarshalDests (xs : list value) : list Dest + error :=
  match xs with
  | [] => inl []
  | x :: rest =>
      match unmarshalDest x with
      | inr e => inr e
      | inl d =>
          match unmarshalDests rest with
          | inl ds => inl (d :: ds)
          | inr e => inr e
          end
      end
  end.

(** Decoding into [var dests []Dest]: [null] leaves the nil slice, an
    array is decoded element by element, anything else is a type error.
    (The library goes on after a type error and returns the first one; the
    caller exits on any error, so only the error is kept.) *)
Definition Unmarshal (v : value) : list Dest + error :=
  match v with
  | Null => inl []
  | Array xs => unmarshalDests xs
  | _ => inr (UnmarshalTypeError v None "[]main.Dest")
  end.

(** *** What the decoder accepts *)

Definition is_string_or_null (v : value) : bool :=
  match v with Str _ | Null => true | _ => false end.

(** A member is acceptable unless its key selects [host] or [user] and
    its value is neither a string nor [null]. *)
Definition member_ok (m : string * value) : bool :=
  if selects "host" m.1 || selects "user" m.1
  then is_string_or_null m.2 else true.

Definition element_ok (v : value) : bool :=
  match v with
  | Null => true
  | Object fields => forallb member_ok fields
  | _ => false
  end.

Definition decodable (v : value) : bool :=
  match v with
  | Null => true
  | Array xs => forallb element_ok xs
  | _ => false
  end.

(** The string a field ends up with: the last string among the members
    whose key selects it, [start] if there is none. *)
Fixpoint last_string (name start : string) (fields : list (string * value))
  : string :=
  match fields with
  | [] => start
  | (key, v) :: rest =>
      last_string name
        (if selects name key then match v with Str s => s | _ => start end
         else start)
        rest
  end.

(** What an acceptable value decodes to, element by element, in the
    order of the file. *)
Definition decoded_element (v : value) : Dest :=
  match v with
  | Object fields =>
      mkDest (last_string "host" "" fields) (last_string "user" "" fields)
  | _ => mkDest "" ""
  end.

Definition decoded (v : value) : list Dest :=
  match v with
  | Array xs => map decoded_element xs
  | _ => []
  end.

(** *** The format as the specification words it

    A sequence of objects each containing a [host] and a [user] string
    field. *)
Definition has_string_field (name : string) (fields : list (string * value))
  : bool :=
  existsb (fun m => String.eqb m.1 name &&
                    match m.2 with Str _ => true | _ => false end) fields.

Definition spec_destination (v : value) : bool :=
  match v with
  | Object fields =>
      has_string_field "host" fields && has_string_field "user" fields
  | _ => false
  end.

Definition spec_destinations (v : value) : bool :=
  match v with
  | Array xs => forallb spec_destination xs
  | _ => false
  end.

End Json.

(** ** The outside world

    What the operating system, the network and the libraries answer.  The
    answers are fixed per argument: the program never asks the same question
    twice on one path. *)

Record Signer := mkSigner { signer_key : string }.
Record ClientConfig := mkClientConfig {
  cfg_User : string;
  cfg_Auth : list Signer;
  cfg_InsecureIgnoreHostKey : bool }.
Record Client := mkClient { client_addr : string; client_user : string }.
Record SshSession := mkSshSession { session_conn : Client }.
Definition File := string.

Record World := mkWorld {
  os_Args0 : string;
  flag_Defaults : string;
  os_Open : string -> File + error;
  (* the first JSON value on the file, or the scanner's (or reader's) error *)
  json_Scan : File -> Json.value + error;
  (* the bytes of the file after its first JSON value; the program never
     reads them ([Decode] is called once) *)
  json_Rest : File -> string;
  homedir_Dir : string + error;
  filepath_Join : list string -> string;
  ioutil_ReadFile : string -> string + error;
  ssh_ParsePrivateKey : string -> Signer + error;
  ssh_Dial : string -> string -> ClientConfig -> Client + error;
  conn_NewSession : Client -> SshSession + error;
  (* standard output of the remote command, and its error if any *)
  session_Output : SshSession -> string -> string * option error }.

(** ** Effects, panics and defer *)

Inductive Effect :=
| Stdout (s : string)          (* one write to os.Stdout *)
| Stderr (s : string)          (* one write to os.Stderr *)
| ReadKey (path : string)
| DialTCP (addr user : string) (* a connection attempt *)
| OpenSession (c : Client)
| Exec (s : SshSession) (cmd : string)
| CloseSession (s : SshSession)
| CloseConn (c : Client)
| WgDone                       (* wg.Done() *)
| Fatal (msg : string).        (* unrecovered panic: the runtime ends the process *)

(** The runtime reports a fatal panic on standard error in its own words;
    that report is not part of the streams below, which hold what the
    program writes through [fmt]. *)

Inductive Outcome (A : Type) :=
| Return (a : A)
| Panicking (msg : string).
Arguments Return {A} a.
Arguments Panicking {A} msg.

(** A computation: the effects it performed, in order, and how it ended. *)
Definition Go (A : Type) : Type := list Effect * Outcome A.

Definition effects {A} (m : Go A) : list Effect := fst m.
Definition outcome {A} (m : Go A) : Outcome A := snd m.

#[global] Instance Go_ret : MRet Go := fun A a => ([], Return a).
#[global] Instance Go_bind : MBind Go := fun A B f m =>
  match m with
  | (l, Return a) => let '(l', r) := f a in (l ++ l', r)
  | (l, Panicking msg) => (l, Panicking msg)
  end.

Definition perform (e : Effect) : Go unit := ([e], Return tt).
Definition panic {A} (msg : string) : Go A := ([], Panicking msg).

Definition nilDeref : string :=
  "runtime error: invalid memory address or nil pointer dereference".

(** [defer d; body]: [body] runs, then [d] runs however [body] ended.  A
    panic of [d] replaces the state of [body]; otherwise [body]'s result (or
    its panic) stands. *)
Definition defer_ {A} (d : Go unit) (body : Go A) : Go A :=
  let '(l, r) := body in
  let '(l', r') := d in
  (l ++ l', match r' with
            | Panicking msg => Panicking msg
            | Return _ => r
            end).

(** What a goroutine does when it runs [m]: the effects of [m], and the
    fatal error of the runtime when [m] ends in a panic. *)
Definition goroutine (m : Go unit) : list Effect :=
  match m with
  | (l, Return _) => l
  | (l, Panicking msg) => l ++ [Fatal msg]
  end.

Definition written_stdout (e : Effect) : string :=
  match e with Stdout s => s | _ => "" end.
Definition written_stderr (e : Effect) : string :=
  match e with Stderr s => s | _ => "" end.

(** Everything written to a stream by a sequence of effects. *)
Definition stdout_of (l : list Effect) : string :=
  foldr (fun e acc => written_stdout e +:+ acc) "" l.
Definition stderr_of (l : list Effect) : string :=
  foldr (fun e acc => written_stderr e +:+ acc) "" l.

Definition is_attempt (e : Effect) : bool :=
  match e with
  | ReadKey _ | DialTCP _ _ | OpenSession _ | Exec _ _ => true
  | _ => false
  end.

(** The steps of opening and using a connection found in a log. *)
Definition attempts (l : list Effect) : list Effect := filter is_attempt l.

(** ** The program *)

(** The package-level variables set by [flag.Parse] in [init]. *)
Record Flags := mkFlags {
  help : bool;
  quiet : bool;
  privateKey : string;
  port : string }.

Definition defaultPort : string := "22".

(** [Session]: every field is a pointer or an interface and may be nil. *)
Record Session := mkSession {
  config : option ClientConfig;
  conn : option Client;
  session : option SshSession;
  StdinPipe : option nat }.

Inductive MainPc :=
| Spawning (rest : list Dest)  (* in the loop of go statements *)
| Waiting.                     (* in wg.Wait() *)

(** The process: where [main] stands, the counter of the WaitGroup, what
    each goroutine has still to do, what has been done so far (in the order
    it happened), and the exit status once the process has ended. *)
Record Proc := mkProc {
  pc : MainPc;
  wg : Z;
  gs : list (list Effect);
  log : list Effect;
  exited : option Z }.

Inductive Choice :=
| MainStep
| GoStep (i : nat).

(** How [main] gets to the fan-out, if it does. *)
Inductive Start :=
| Exits (code : Z) (l : list Effect)
| FansOut (key prt : string) (dests : list Dest).

Section Program.

Variable w : World.

(** [NewSession] returns new Session instance *)
Definition NewSession (ip port user privateKey : string)
  : Go (option Session * option error) :=
  perform (ReadKey privateKey);;
  match ioutil_ReadFile w privateKey with
  | inr err => mret (None, Some err)
  | inl buf =>
      match ssh_ParsePrivateKey w buf with
      | inr err => mret (None, Some err)
      | inl key =>
          let config := {| cfg_User := user;
                           cfg_Auth := [key];
                           cfg_InsecureIgnoreHostKey := true |} in
          perform (DialTCP (ip +:+ ":" +:+ port) user);;
          match ssh_Dial w "tcp" (ip +:+ ":" +:+ port) config with
          | inr err => mret (None, Some err)
          | inl conn =>
              perform (OpenSession conn);;
              match conn_NewSession w conn with
              | inr err => mret (None, Some err)
              | inl session =>
                  mret (Some {| config := Some config;
                                conn := Some conn;
                                session := Some session;
                                StdinPipe := None |}, None)
              end
          end
      end
  end.

(** [Close] close the session & connection.  The receiver is a pointer:
    reading a field of a nil receiver panics. *)
Definition Close (s : option Session) : Go unit :=
  match s with
  | None => panic nilDeref
  | Some s =>
      match session s with
      | Some x => perform (CloseSession x)
      | None => mret tt
      end;;
      match conn s with
      | Some c => perform (CloseConn c)
      | None => mret tt
      end
  end.

(** [GetCrontab]: the output of [crontab -l] and the error of the run. *)
Definition GetCrontab (s : option Session) : Go (string * option error) :=
  let cmd := Fmt.Sprintf (line "crontab -l") in
  match s with
  | None => panic nilDeref
  | Some s =>
      match session s with
      | None => panic nilDeref
      | Some x => perform (Exec x cmd);; mret (session_Output w x cmd)
      end
  end.

Section Unit.

(** The globals [port] and [privateKey] as [main] leaves them. *)
Variables port privateKey : string.

(** [call]: the two [defer] statements are reached on every path, because
    no branch of the source returns.  [defer session.Close()] only saves the
    receiver, so a nil session does no harm at that line; it is dereferenced
    when [GetCrontab] and the deferred [Close] run. *)
Definition call (host user : string) : Go unit :=
  defer_ (perform WgDone) (
    '(session, err) ← NewSession host port user privateKey;
    (if err is Some _
     then perform (Stderr (line ("ERROR: [Host] " +:+ host +:+ "@" +:+ user)))
     else mret tt);;
    defer_ (Close session) (
      '(bytes, err) ← GetCrontab session;
      (if err is Some _
       then perform (Stderr (line ("ERROR: [Host] " +:+ host +:+ "@" +:+ user)))
       else mret tt);;
      (if err is Some e
       then perform (Stderr (line ("ERROR: [Host] " +:+ host +:+ "@" +:+ user)));;
            perform (Stderr (line e))
       else mret tt);;
      let content := Fmt.Sprintf bytes in
      perform (Stdout (line ("[Host] " +:+ user +:+ "@" +:+ host)));;
      perform (Stdout (line ("[Content] " +:+ String LF "" +:+ content)))
    )).

(** One effect of a goroutine applied to the process. *)
Definition apply_effect (e : Effect) (p : Proc) : Proc :=
  match e with
  | WgDone =>
      (* a negative counter is a panic of the sync package *)
      if (wg p - 1 <? 0)%Z
      then mkProc (pc p) (wg p - 1) (gs p) (log p ++ [e]) (Some 2%Z)
      else mkProc (pc p) (wg p - 1) (gs p) (log p ++ [e]) None
  | Fatal _ => mkProc (pc p) (wg p) (gs p) (log p ++ [e]) (Some 2%Z)
  | _ => mkProc (pc p) (wg p) (gs p) (log p ++ [e]) None
  end.

(** One step of the process: [main] moves, or goroutine [i] does its
    next effect.  Nothing moves once the process has exited; [main]
    cannot leave [wg.Wait()] while the counter is not zero. *)
Definition step (c : Choice) (p : Proc) : option Proc :=
  match exited p with
  | Some _ => None
  | None =>
      match c with
      | MainStep =>
          match pc p with
          | Spawning (dest :: rest) =>
              Some (mkProc (Spawning rest) (wg p)
                      (gs p ++ [goroutine (call (Host dest) (User dest))])
                      (log p) None)
          | Spawning [] => Some (mkProc Waiting (wg p) (gs p) (log p) None)
          | Waiting =>
              if (wg p =? 0)%Z
              then Some (mkProc Waiting (wg p) (gs p) (log p) (Some 0%Z))
              else None
          end
      | GoStep i =>
          match gs p !! i with
          | Some (e :: rest) =>
              Some (apply_effect e
                      (mkProc (pc p) (wg p) (<[i:=rest]> (gs p)) (log p) None))
          | _ => None
          end
      end
  end.

Definition steps_to (p p' : Proc) : Prop := ∃ c, step c p = Some p'.

(** A scheduler's list of choices, run from [p]; a choice that cannot
    move is skipped. *)
Fixpoint exec (sched : list Choice) (p : Proc) : Proc :=
  match sched with
  | [] => p
  | c :: sched' =>
      match step c p with
      | Some p' => exec sched' p'
      | None => exec sched' p
      end
  end.

(** After [wg.Add(len(dests))], before the first go statement. *)
Definition fan_out (dests : list Dest) : Proc :=
  mkProc (Spawning dests) (Z.of_nat (length dests)) [] [] None.

End Unit.

Definition showUsage : list Effect :=
  [ Stderr (line ("Usage: " +:+ os_Args0 w +:+ " [configfile]"));
    Stderr (line "Flags:");
    Stderr (flag_Defaults w) ].

(** [json.NewDecoder(file).Decode(&dests)] *)
Definition Decode (file : File) : list Dest + error :=
  match json_Scan w file with
  | inr err => inr err
  | inl v => Json.Unmarshal v
  end.

(** Lines 47 to 58 of [main]: the file is opened and decoded. *)
Definition loadDests (path : string) : list Dest + error :=
  match os_Open w path with
  | inr err => inr err
  | inl file => Decode file
  end.

(** [main] up to the fan-out: every [os.Exit] of the source is here. *)
Definition main_start (fl : Flags) (args : list string) : Start :=
  if help fl then Exits 0 showUsage
  else
    match args with
    | [path] =>
        match loadDests path with
        | inr err => Exits 1 [Stderr (line err)]
        | inl dests =>
            let prt := if String.eqb (port fl) "" then defaultPort else port fl in
            if String.eqb (privateKey fl) "" then
              match homedir_Dir w with
              | inr err => Exits 1 [Stderr (line err)]
              | inl home =>
                  FansOut (filepath_Join w [home; ".ssh"; "id_rsa"]) prt dests
              end
            else FansOut (privateKey fl) prt dests
        end
    | _ =>
        Exits 1 [ Stderr (line "ERROR: Arguments length is invalid");
                  Stderr (line ("Usage: " +:+ os_Args0 w +:+ " [configfile]")) ]
    end.

(** The states the process can be in: the state of an early exit (no
    goroutine, the log of the exit path, the status of [os.Exit]), or a
    state the fan-out reaches under some schedule. *)
Definition main_reaches (fl : Flags) (args : list string) (p : Proc) : Prop :=
  match main_start fl args with
  | Exits code l => p = mkProc Waiting 0 [] l (Some code)
  | FansOut key prt dests => rtc (steps_to prt key) (fan_out dests) p
  end.

(** [main] under a schedule: the state in which the run ends (or stands,
    when the schedule is too short). *)
Definition main (fl : Flags) (args : list string) (sched : list Choice) : Proc :=
  match main_start fl args with
  | Exits code l => mkProc Waiting 0 [] l (Some code)
  | FansOut key prt dests => exec prt key sched (fan_out dests)
  end.

End Program.

(** ** The join

    What is needed to state that [main] leaves [wg.Wait()] only after every
    goroutine has called [wg.Done()]. *)

Definition is_done (e : Effect) : bool :=
  match e with WgDone => true | _ => false end.

(** The calls of [wg.Done()] a goroutine has still to make. *)
Fixpoint pending (g : list Effect) : nat :=
  match g with
  | [] => 0
  | e :: g' => (if is_done e then 1 else 0) + pending g'
  end.

(** The destinations for which [main] has not yet started a goroutine. *)
Definition unspawned (p : Proc) : list Dest :=
  match pc p with
  | Spawning rest => rest
  | Waiting => []
  end.

Section Join.

Variable w : World.
Variables port key : string.
Variable dests : list Dest.

(** The invariant of the fan-out over [dests]: the goroutines started so
    far are those of the first destinations, each is somewhere in the code
    of [call] for its destination, the counter is the number of calls of
    [wg.Done()] still to come, and exit status 0 is only set by [main]
    leaving [wg.Wait()] with the counter at zero. *)
Record join_inv (p : Proc) : Prop := mkJoinInv {
  inv_spawned : drop (length (gs p)) dests = unspawned p;
  inv_counter :
    wg p = Z.of_nat (length (unspawned p) + sum_list_with pending (gs p));
  inv_exit0 : exited p = Some 0%Z -> pc p = Waiting ∧ wg p = 0%Z;
  inv_code : ∀ i g, gs p !! i = Some g ->
    ∃ d, dests !! i = Some d ∧
         g `suffix_of` goroutine (call w port key (Host d) (User d)) }.

End Join.

(** Names for two texts of the source, used in the statements below: the
    command of [GetCrontab] and the error line of [call]. *)
Definition crontab_cmd : string := line "crontab -l".

Definition error_line (host user : string) : Effect :=
  Stderr (line ("ERROR: [Host] " +:+ host +:+ "@" +:+ user)).

(** ** A well-formed configuration file, as the specification means it

    The file as a whole is one JSON text: the scanner finds a value on it
    and nothing but white space follows the value. *)

Definition is_json_space (c : ascii) : bool :=
  Ascii.eqb c " " || Ascii.eqb c "009" || Ascii.eqb c "010" || Ascii.eqb c "013".

Fixpoint all_bytes (p : ascii -> bool) (s : string) : bool :=
  match s with
  | "" => true
  | String c s' => p c && all_bytes p s'
  end.

Definition json_document (w : World) (file : File) : bool :=
  match json_Scan w file with
  | inl _ => all_bytes is_json_space (json_Rest w file)
  | inr _ => false
  end.

(** ** Kinds of effects and the work left

    Used in the statements on the whole process further down. *)

Definition is_fatal (e : Effect) : bool :=
  match e with Fatal _ => true | _ => false end.

Definition is_close (e : Effect) : bool :=
  match e with CloseSession _ | CloseConn _ => true | _ => false end.

Section Work.

Variable w : World.
Variables port key : string.

(** The code of the goroutine started for a destination. *)
Definition unit_of (d : Dest) : list Effect :=
  goroutine (call w port key (Host d) (User d)).

(** A bound on the steps a process can still take: one for each effect a
    goroutine has left, one for each go statement to come and the effects
    of its goroutine, one for leaving the loop and one for leaving
    [wg.Wait()]. *)
Definition work_left (p : Proc) : nat :=
  match exited p with
  | Some _ => 0
  | None =>
      1 + match pc p with
          | Spawning rest =>
              1 + sum_list_with (fun d => 1 + length (unit_of d)) rest
          | Waiting => 0
          end
        + sum_list_with length (gs p)
  end.

End Work.

(** ** Sample worlds

    Concrete worlds on which the definitions above are evaluated. *)

Module Sample.

Definition flags : Flags :=
  {| help := false; quiet := false; privateKey := "/k/id_rsa"; port := "" |}.

(** No [-i]: the key path comes from the home directory. *)
Definition flags_no_key : Flags :=
  {| help := false; quiet := false; privateKey := ""; port := "" |}.

Definition two_dests : Json.value :=
  Json.Array
    [ Json.Object [("host", Json.Str "h1"); ("user", Json.Str "u1")];
      Json.Object [("host", Json.Str "h2"); ("user", Json.Str "u2")] ].

Definition one_dest : Json.value :=
  Json.Array [ Json.Object [("host", Json.Str "h1"); ("user", Json.Str "u1")] ].

(** A world where the configuration file holds [cfg], the home directory
    resolves as [home], the key file reads as [key], the hosts for which
    [up] holds accept the connection, and the remote command behaves as
    [remote] says for the host it runs on. *)
Definition world (cfg : Json.value + error) (home key : string + error)
    (up : string -> bool) (remote : string -> string * option error) : World :=
  {| os_Args0 := "cron-job-list";
     flag_Defaults := "";
     os_Open path :=
       if String.eqb path "dests.json" then inl "dests.json"
       else inr ("open " +:+ path +:+ ": no such file or directory");
     json_Scan _ := cfg;
     json_Rest _ := "";
     homedir_Dir := home;
     filepath_Join elems := String.concat "/" elems;
     ioutil_ReadFile _ := key;
     ssh_ParsePrivateKey buf := inl (mkSigner buf);
     ssh_Dial _ addr cfg :=
       if up addr then inl (mkClient addr (cfg_User cfg))
       else inr ("dial tcp " +:+ addr +:+ ": connect: connection refused");
     conn_NewSession c := inl (mkSshSession c);
     session_Output s _ := remote (client_addr (session_conn s)) |}.

Definition all_up (addr : string) : bool := true.
Definition h2_down (addr : string) : bool := negb (String.eqb addr "h2:22").

Definition true_job : string := line "* * * * * /bin/true".
(** A crontab line with an escaped percent sign, as cron requires. *)
Definition date_job : string := line "0 0 * * * date +\%F".

Definition gives (out : string) (addr : string) : string * option error :=
  (out, None).
(** [crontab -l] of a user without a crontab: no output, exit status 1. *)
Definition no_crontab (addr : string) : string * option error :=
  ("", Some "Process exited with status 1").

Definition key_ok : string + error := inl "PRIVATE KEY".
Definition key_missing : string + error :=
  inr "open /k/id_rsa: no such file or directory".
Definition home_ok : string + error := inl "/home/op".
Definition home_unknown : string + error := inr "missing user home directory".

(** The scenario of two hosts, the first up and the second down. *)
Definition w_h2_down : World :=
  world (inl two_dests) home_ok key_ok h2_down (gives true_job).
Definition w_percent : World :=
  world (inl one_dest) home_ok key_ok all_up (gives date_job).
Definition w_no_crontab : World :=
  world (inl one_dest) home_ok key_ok all_up no_crontab.
Definition w_no_key : World :=
  world (inl two_dests) home_ok key_missing all_up (gives true_job).
Definition w_empty_object : World :=
  world (inl (Json.Array [Json.Object []])) home_ok key_ok all_up (gives true_job).
Definition w_empty_no_home : World :=
  world (inl (Json.Array [])) home_unknown key_ok all_up (gives true_job).
Definition w_syntax_error : World :=
  world (inr "invalid character '}' looking for beginning of value")
    home_ok key_ok all_up (gives true_job).

(** Both hosts up, for runs that end with status 0. *)
Definition w_all_up : World :=
  world (inl two_dests) home_ok key_ok all_up (gives true_job).

(** [main] starts both goroutines and waits; the goroutine of h1 runs its
    nine effects, then the goroutine of h2, then [main] returns. *)
Definition in_turn : list Choice :=
  [MainStep; MainStep; MainStep] ++ replicate 9 (GoStep 0) ++
  replicate 9 (GoStep 1) ++ [MainStep].

(** The world [w0] with [rest] left on the file after its first value. *)
Definition followed_by (rest : string) (w0 : World) : World :=
  {| os_Args0 := os_Args0 w0;
     flag_Defaults := flag_Defaults w0;
     os_Open := os_Open w0;
     json_Scan := json_Scan w0;
     json_Rest _ := rest;
     homedir_Dir := homedir_Dir w0;
     filepath_Join := filepath_Join w0;
     ioutil_ReadFile := ioutil_ReadFile w0;
     ssh_ParsePrivateKey := ssh_ParsePrivateKey w0;
     ssh_Dial := ssh_Dial w0;
     conn_NewSession := conn_NewSession w0;
     session_Output := session_Output w0 |}.

(** The file holds the list of one destination and then a stray closing
    bracket; the host is up. *)
Definition w_trailing : World :=
  followed_by "]" (world (inl one_dest) home_ok key_ok all_up (gives true_job)).

(** [main] starts the one goroutine and waits; the goroutine runs its nine
    effects; [main] returns. *)
Definition one_turn : list Choice :=
  [MainStep; MainStep] ++ replicate 9 (GoStep 0) ++ [MainStep].

(** The goroutine of h2 first, up to its fatal error. *)
Definition h2_first : list Choice :=
  [MainStep; MainStep; MainStep] ++ replicate 5 (GoStep 1).

End Sample.

(** * Properties *)

(** ** Strings *)

Lemma append_assoc (a b c : string) : (a +:+ b) +:+ c = a +:+ (b +:+ c).
Proof.
  induction a as [|x a IH]; [done|].
  change (String x ((a +:+ b) +:+ c) = String x (a +:+ (b +:+ c))).
  by rewrite IH.
Qed.

Lemma append_nil_r (a : string) : a +:+ "" = a.
Proof.
  induction a as [|x a IH]; [done|].
  change (String x (a +:+ "") = String x a). by rewrite IH.
Qed.

(** ** The formatter *)

Module FmtFacts.
Import Fmt.

Lemma skipFlags_length s : (String.length (skipFlags s) <= String.length s)%nat.
Proof. induction s as [|c s IH]; simpl; [lia|]. destruct (isFlag c); simpl; lia. Qed.

Lemma parsenum_from_length s num isnum :
  (String.length (parsenum_from s num isnum).2 <= String.length s)%nat.
Proof.
  revert num isnum. induction s as [|c s IH]; intros num isnum; simpl; [lia|].
  destruct (byte_in 48 57 c); simpl; [|lia].
  destruct (tooLarge num); simpl; [lia|].
  specialize (IH (num * 10 + (Z.of_nat (nat_of_ascii c) - 48))%Z true). lia.
Qed.

Lemma splitBracket_length s inside after :
  splitBracket s = Some (inside, after) ->
  (String.length after < String.length s)%nat.
Proof.
  revert inside. induction s as [|c s IH]; intros inside; simpl; [discriminate|].
  destruct (Ascii.eqb c "]").
  - intros [= <- <-]. lia.
  - destruct (splitBracket s) as [[i a]|] eqn:E; [|discriminate].
    intros [= <- <-]. specialize (IH i eq_refl). lia.
Qed.

Lemma parseArgNumber_length s :
  (String.length (parseArgNumber s).1.2 <= String.length s)%nat.
Proof.
  unfold parseArgNumber.
  destruct (String.length s <? 2)%nat; simpl; [lia|].
  destruct (splitBracket s) as [[inside after]|] eqn:E; simpl; [|lia].
  apply splitBracket_length in E.
  destruct (parsenum inside) as [[width ok] rest].
  destruct (ok && (String.length rest =? 0)%nat); simpl; lia.
Qed.

Lemma after_byte_length c s s' :
  after_byte c s = Some s' -> String.length s = S (String.length s').
Proof.
  destruct s as [|c0 s0]; simpl; [discriminate|].
  destruct (Ascii.eqb c0 c); [|discriminate]. by intros [= <-].
Qed.

Lemma argNumber_length s :
  (String.length (argNumber s).1.1 <= String.length s)%nat.
Proof.
  unfold argNumber. destruct (after_byte "[" s) as [s'|] eqn:E; simpl; [|lia].
  apply after_byte_length in E.
  pose proof (parseArgNumber_length s') as H.
  destruct (parseArgNumber s') as [[i rest] ok]; simpl in *. lia.
Qed.

Lemma utf8_cont_length lo hi s c s' :
  utf8_cont lo hi s = Some (c, s') -> String.length s = S (String.length s').
Proof.
  destruct s as [|c0 s0]; simpl; [discriminate|].
  destruct (byte_in lo hi c0); [|discriminate]. by intros [= <- <-].
Qed.

Lemma decodeRune_length c s :
  (String.length (decodeRune c s).2 <= String.length s)%nat.
Proof.
  unfold decodeRune.
  destruct (nat_of_ascii c <? 128)%nat; simpl; [lia|].
  match goal with |- context [match ?sa with Some _ => _ | None => _ end] =>
    destruct sa as [[[size lo] hi]|] end; simpl; [|lia].
  destruct (String.length s <? size - 1)%nat; simpl; [lia|].
  destruct (utf8_cont lo hi s) as [[c1 s1]|] eqn:E1; simpl; [|lia].
  apply utf8_cont_length in E1.
  destruct (size =? 2)%nat; simpl; [lia|].
  destruct (utf8_cont 128 191 s1) as [[c2 s2]|] eqn:E2; simpl; [|lia].
  apply utf8_cont_length in E2.
  destruct (size =? 3)%nat; simpl; [lia|].
  destruct (utf8_cont 128 191 s2) as [[c3 s3]|] eqn:E3; simpl; [|lia].
  apply utf8_cont_length in E3. lia.
Qed.

Lemma parsenum_length s :
  (String.length (parsenum s).2 <= String.length s)%nat.
Proof. apply parsenum_from_length. Qed.

Lemma doWidth_length s ai g :
  (String.length (doWidth s ai g).1.1.2 <= String.length s)%nat.
Proof.
  unfold doWidth. destruct (after_byte "*" s) as [s'|] eqn:E; simpl.
  - apply after_byte_length in E. lia.
  - pose proof (parsenum_length s) as Hp.
    destruct (parsenum s) as [[n isn] r]; simpl in *. lia.
Qed.

Lemma doPrecision_length out s ai g :
  (String.length (doPrecision out s ai g).1.1.2 <= String.length s)%nat.
Proof.
  unfold doPrecision.
  destruct (after_byte "." s) as [[|c0 s0]|] eqn:E; [simpl; lia| |simpl; lia].
  apply after_byte_length in E. simpl in E.
  pose proof (argNumber_length (String c0 s0)) as Ha.
  destruct (argNumber (String c0 s0)) as [[t ai'] g']; simpl in Ha.
  cbn [fst snd].
  destruct (after_byte "*" t) as [t'|] eqn:E'; simpl.
  - apply after_byte_length in E'. lia.
  - pose proof (parsenum_length t) as Hp.
    destruct (parsenum t) as [[n isn] r]; simpl in *. lia.
Qed.

Lemma doIndex_length s ai g :
  (String.length (doIndex s ai g).1 <= String.length s)%nat.
Proof.
  unfold doIndex. destruct ai; simpl; [lia|].
  pose proof (argNumber_length s) as Ha.
  destruct (argNumber s) as [[s' ai] g']; simpl in *. lia.
Qed.

Lemma doVerb_length s :
  (String.length (doVerb s).2 <= String.length s)%nat.
Proof.
  unfold doVerb.
  pose proof (skipFlags_length s) as H0.
  pose proof (argNumber_length (skipFlags s)) as H1.
  destruct (argNumber (skipFlags s)) as [[s1 ai1] g1]; simpl in H1.
  pose proof (doWidth_length s1 ai1 g1) as H2.
  destruct (doWidth s1 ai1 g1) as [[[out s2] ai2] g2]; simpl in H2.
  pose proof (doPrecision_length out s2 ai2 g2) as H3.
  destruct (doPrecision out s2 ai2 g2) as [[[out' s3] ai3] g3]; simpl in H3.
  pose proof (doIndex_length s3 ai3 g3) as H4.
  destruct (doIndex s3 ai3 g3) as [s4 g4]; simpl in H4.
  destruct s4 as [|c s5]; simpl in *; [lia|].
  pose proof (decodeRune_length c s5) as H5.
  destruct (decodeRune c s5) as [verb rest]; simpl in *.
  destruct (Ascii.eqb c "%"); [simpl; lia|].
  destruct (negb g4); simpl; lia.
Qed.

(** More fuel than the format is long is never used up. *)
Lemma doPrintf_fuel n m format :
  (String.length format < n)%nat -> (String.length format < m)%nat ->
  doPrintf n format = doPrintf m format.
Proof.
  revert m format. induction n as [|n IH]; intros m format Hn Hm; [lia|].
  destruct m as [|m]; [lia|]. simpl.
  destruct format as [|c s]; [done|]. simpl in Hn, Hm.
  destruct (Ascii.eqb c "%").
  - pose proof (doVerb_length s) as Hv.
    destruct (doVerb s) as [out rest]; simpl in Hv.
    f_equal. apply IH; lia.
  - f_equal. apply IH; lia.
Qed.

(** The equations of the formatter, free of fuel. *)
Lemma Sprintf_nil : Sprintf "" = "".
Proof. reflexivity. Qed.

Lemma Sprintf_cons c s :
  Sprintf (String c s) =
  if Ascii.eqb c "%"
  then (doVerb s).1 +:+ Sprintf (doVerb s).2
  else String c (Sprintf s).
Proof.
  unfold Sprintf.
  change (doPrintf (S (String.length (String c s))) (String c s)) with
    (if Ascii.eqb c "%"
     then let '(out, rest) := doVerb s in
          out +:+ doPrintf (S (String.length s)) rest
     else String c (doPrintf (S (String.length s)) s)).
  destruct (Ascii.eqb c "%"); [|done].
  pose proof (doVerb_length s) as Hv.
  destruct (doVerb s) as [out rest]. cbn [fst snd] in *.
  f_equal. apply doPrintf_fuel; lia.
Qed.

(** A format without a percent sign is written as it is. *)
Lemma Sprintf_plain s : contains_byte "%" s = false -> Sprintf s = s.
Proof.
  induction s as [|c s IH]; [done|]. cbn [contains_byte]. intros H.
  rewrite Sprintf_cons. rewrite Ascii.eqb_sym.
  destruct (Ascii.eqb "%" c); [done|]. by rewrite IH.
Qed.

End FmtFacts.


(** ** The session: [NewSession], [Close], [GetCrontab] *)

Section SessionFacts.

Variable w : World.

(** [NewSession] always returns, and in one of two shapes: a nil session
    with an error, or a session with all three pointers set and no error. *)
Lemma NewSession_cases ip port user key :
  (∃ l e, NewSession w ip port user key = (l, Return (None, Some e))) ∨
  (∃ l cfg c x,
      NewSession w ip port user key =
      (l, Return (Some (mkSession (Some cfg) (Some c) (Some x) None), None))).
Proof.
  unfold NewSession.
  destruct (ioutil_ReadFile w key) as [buf|e]; [|left; by eexists _, _].
  destruct (ssh_ParsePrivateKey w buf) as [k|e]; [|left; by eexists _, _].
  cbn.
  destruct (ssh_Dial w "tcp" _ _) as [c|e]; [|left; by eexists _, _].
  cbn.
  destruct (conn_NewSession w c) as [x|e]; [|left; by eexists _, _].
  right. by eexists _, _, _, _.
Qed.

(** [NewSession] writes nothing and never touches the WaitGroup. *)
Lemma NewSession_effects ip port user key :
  Forall (fun e => is_attempt e = true) (effects (NewSession w ip port user key)).
Proof.
  unfold NewSession.
  destruct (ioutil_ReadFile w key) as [buf|e]; [|by repeat constructor].
  destruct (ssh_ParsePrivateKey w buf) as [k|e]; [|by repeat constructor].
  cbn.
  destruct (ssh_Dial w "tcp" _ _) as [c|e]; [|by repeat constructor].
  cbn.
  destruct (conn_NewSession w c) as [x|e]; by repeat constructor.
Qed.

Lemma Close_nil : Close None = ([], Panicking nilDeref).
Proof. reflexivity. Qed.

Lemma GetCrontab_nil : GetCrontab w None = ([], Panicking nilDeref).
Proof. reflexivity. Qed.

(** A session whose pointers are set is closed without a panic:
    the command channel first, then the connection. *)
Lemma Close_open cfg c x pipe :
  Close (Some (mkSession cfg (Some c) (Some x) pipe)) =
  ([CloseSession x; CloseConn c], Return tt).
Proof. reflexivity. Qed.

(** [Close] tolerates nil fields of a session that is not itself nil. *)
Lemma Close_fields_nil cfg pipe :
  Close (Some (mkSession cfg None None pipe)) = ([], Return tt).
Proof. reflexivity. Qed.

End SessionFacts.

(** ** The unit of work: [call] *)

Section CallFacts.

Variable w : World.
Variables port key : string.

Lemma stdout_of_app l1 l2 : stdout_of (l1 ++ l2) = stdout_of l1 +:+ stdout_of l2.
Proof.
  unfold stdout_of. induction l1 as [|e l1 IH]; cbn; [done|].
  rewrite IH. by rewrite append_assoc.
Qed.

Lemma stderr_of_app l1 l2 : stderr_of (l1 ++ l2) = stderr_of l1 +:+ stderr_of l2.
Proof.
  unfold stderr_of. induction l1 as [|e l1 IH]; cbn; [done|].
  rewrite IH. by rewrite append_assoc.
Qed.

Lemma attempts_silent l :
  Forall (fun e => is_attempt e = true) l -> stdout_of l = "" ∧ stderr_of l = "".
Proof.
  unfold stdout_of, stderr_of.
  induction 1 as [|e l He _ [IH1 IH2]]; [done|].
  cbn. rewrite IH1, IH2. by destruct e.
Qed.

Lemma crontab_cmd_eq : Fmt.Sprintf (line "crontab -l") = crontab_cmd.
Proof. reflexivity. Qed.

(** [call] when [NewSession] fails: one error line, then the nil session
    is used; [GetCrontab] panics, the deferred [Close] panics too, the
    deferred [wg.Done] runs, and the panic leaves [call]. *)
Lemma call_open_failed host user l s e :
  NewSession w host port user key = (l, Return (s, Some e)) ->
  call w port key host user =
  (l ++ [error_line host user; WgDone], Panicking nilDeref).
Proof.
  intros H. unfold call. rewrite H.
  destruct (NewSession_cases w host port user key)
    as [(l' & e' & H')|(l' & cfg & c & x & H')]; rewrite H in H'; [|done].
  injection H' as -> -> ->. cbn. by rewrite <- app_assoc.
Qed.

(** [call] when the session opens: whatever the command returns, the
    block is printed; an error of the command adds three lines on the
    error stream before it. *)
Lemma call_opened host user l cfg c x pipe :
  NewSession w host port user key =
    (l, Return (Some (mkSession cfg (Some c) (Some x) pipe), None)) ->
  call w port key host user =
  (l ++ [Exec x crontab_cmd]
     ++ match (session_Output w x crontab_cmd).2 with
        | Some e => [error_line host user; error_line host user; Stderr (line e)]
        | None => []
        end
     ++ [ Stdout (line ("[Host] " +:+ user +:+ "@" +:+ host));
          Stdout (line ("[Content] " +:+ String LF "" +:+
                        Fmt.Sprintf (session_Output w x crontab_cmd).1));
          CloseSession x; CloseConn c; WgDone ],
   Return tt).
Proof.
  intros H. unfold call. rewrite H. unfold GetCrontab. rewrite crontab_cmd_eq.
  cbn. destruct (session_Output w x crontab_cmd) as [bytes [e|]]; cbn.
  - by rewrite <- !app_assoc.
  - by rewrite <- !app_assoc.
Qed.

End CallFacts.

(** ** Claims on the session and the unit of work *)

Section UnitClaims.

Variable w : World.
Variables port key : string.

(** Each of the four failures of [NewSession] gives the nil session and
    the error of the failing step. *)
Lemma NewSession_failures ip user :
  let addr := ip +:+ ":" +:+ port in
  let config := mkClientConfig user in
  (∀ e, ioutil_ReadFile w key = inr e ->
        outcome (NewSession w ip port user key) = Return (None, Some e)) ∧
  (∀ buf e, ioutil_ReadFile w key = inl buf ->
        ssh_ParsePrivateKey w buf = inr e ->
        outcome (NewSession w ip port user key) = Return (None, Some e)) ∧
  (∀ buf k e, ioutil_ReadFile w key = inl buf ->
        ssh_ParsePrivateKey w buf = inl k ->
        ssh_Dial w "tcp" addr (config [k] true) = inr e ->
        outcome (NewSession w ip port user key) = Return (None, Some e)) ∧
  (∀ buf k c e, ioutil_ReadFile w key = inl buf ->
        ssh_ParsePrivateKey w buf = inl k ->
        ssh_Dial w "tcp" addr (config [k] true) = inl c ->
        conn_NewSession w c = inr e ->
        outcome (NewSession w ip port user key) = Return (None, Some e)).
Proof.
  unfold NewSession. repeat split.
  - by intros e ->.
  - by intros buf e -> ->.
  - intros buf k e -> ->. cbn. by intros ->.
  - intros buf k c e -> ->. cbn. intros ->. cbn. by intros ->.
Qed.

(** C10. Whenever [NewSession] returns a non-nil error, the session
    pointer it returns is nil; a caller that uses the returned value after
    an error dereferences nil: [GetCrontab] and [Close] both panic. *)
Theorem NewSession_error_nil ip user l s e :
  NewSession w ip port user key = (l, Return (s, Some e)) ->
  s = None ∧
  outcome (GetCrontab w s) = Panicking nilDeref ∧
  outcome (Close s) = Panicking nilDeref.
Proof.
  intros H.
  destruct (NewSession_cases w ip port user key)
    as [(l' & e' & H')|(l' & cfg & c & x & H')]; rewrite H in H'; [|done].
  by injection H' as -> -> ->.
Qed.

(** C1 (fails on the code). After a failed [NewSession] the deferred
    [Close] is called on the nil session and panics instead of tolerating
    it; [call] ends in that panic, and a connection that was dialled
    before the failure is never closed. *)
Theorem close_after_failed_open host user l s e :
  NewSession w host port user key = (l, Return (s, Some e)) ->
  outcome (Close s) = Panicking nilDeref ∧
  outcome (call w port key host user) = Panicking nilDeref ∧
  ∀ c, CloseConn c ∉ effects (call w port key host user).
Proof.
  intros H. rewrite (call_open_failed _ _ _ _ _ _ _ _ H).
  destruct (NewSession_cases w host port user key)
    as [(l' & e' & H')|(l' & cfg & c & x & H')]; rewrite H in H'; [|done].
  injection H' as -> -> ->. split; [done|]. split; [done|].
  intros c Hin. cbn in Hin.
  pose proof (NewSession_effects w host port user key) as Ha.
  rewrite H in Ha. cbn in Ha.
  apply elem_of_app in Hin as [Hin|Hin].
  - rewrite Forall_forall in Ha. by specialize (Ha _ Hin).
  - unfold error_line in Hin.
    rewrite !elem_of_cons, elem_of_nil in Hin.
    destruct Hin as [Hin|[Hin|[]]]; discriminate.
Qed.

(** C2 (fails on the code). When the session opens and the remote command
    returns an error, [call] writes the error lines to the error stream AND
    the block to standard output. *)
Theorem call_writes_both host user l cfg c x pipe bytes e :
  NewSession w host port user key =
    (l, Return (Some (mkSession cfg (Some c) (Some x) pipe), None)) ->
  session_Output w x crontab_cmd = (bytes, Some e) ->
  stderr_of (effects (call w port key host user)) =
    line ("ERROR: [Host] " +:+ host +:+ "@" +:+ user) +:+
    line ("ERROR: [Host] " +:+ host +:+ "@" +:+ user) +:+
    line e ∧
  stdout_of (effects (call w port key host user)) =
    line ("[Host] " +:+ user +:+ "@" +:+ host) +:+
    line ("[Content] " +:+ String LF "" +:+ Fmt.Sprintf bytes).
Proof.
  intros H Hout. rewrite (call_opened _ _ _ _ _ _ _ _ _ _ H), Hout.
  pose proof (NewSession_effects w host port user key) as Ha.
  rewrite H in Ha. cbn [effects fst] in Ha.
  apply attempts_silent in Ha as [Ho He].
  cbn [effects fst snd]. rewrite stderr_of_app, stdout_of_app, Ho, He.
  split.
  - unfold stderr_of, error_line; cbn. by rewrite !append_nil_r.
  - unfold stdout_of; cbn. by rewrite !append_nil_r.
Qed.

(** When the session opens and the command succeeds with an output that
    holds no percent sign, the block on standard output is the header and
    the exact output, and nothing goes to the error stream. *)
Lemma call_block_plain host user l cfg c x pipe bytes :
  NewSession w host port user key =
    (l, Return (Some (mkSession cfg (Some c) (Some x) pipe), None)) ->
  session_Output w x crontab_cmd = (bytes, None) ->
  contains_byte "%" bytes = false ->
  stdout_of (effects (call w port key host user)) =
    line ("[Host] " +:+ user +:+ "@" +:+ host) +:+
    line ("[Content] " +:+ String LF "" +:+ bytes) ∧
  stderr_of (effects (call w port key host user)) = "".
Proof.
  intros H Hout Hplain. rewrite (call_opened _ _ _ _ _ _ _ _ _ _ H), Hout.
  pose proof (NewSession_effects w host port user key) as Ha.
  rewrite H in Ha. cbn [effects fst] in Ha.
  apply attempts_silent in Ha as [Ho He].
  cbn [effects fst snd]. rewrite stderr_of_app, stdout_of_app, Ho, He.
  rewrite (FmtFacts.Sprintf_plain _ Hplain).
  split.
  - unfold stdout_of; cbn. by rewrite !append_nil_r.
  - done.
Qed.

End UnitClaims.

(** The witnesses: the key file cannot be read, and a user has no crontab. *)
Lemma NewSession_error_nil_witness :
  NewSession Sample.w_no_key "h1" "22" "u1" "/k/id_rsa" =
    ([ReadKey "/k/id_rsa"], Return (None, Some "open /k/id_rsa: no such file or directory")) ∧
  (@None Session = None ∧
   outcome (GetCrontab Sample.w_no_key None) = Panicking nilDeref ∧
   outcome (Close None) = Panicking nilDeref).
Proof.
  split; [reflexivity|].
  apply (NewSession_error_nil Sample.w_no_key "22" "/k/id_rsa" "h1" "u1"
           [ReadKey "/k/id_rsa"] None "open /k/id_rsa: no such file or directory").
  reflexivity.
Defined.

Lemma close_after_failed_open_witness :
  outcome (Close None) = Panicking nilDeref ∧
  outcome (call Sample.w_no_key "22" "/k/id_rsa" "h1" "u1") = Panicking nilDeref ∧
  ∀ c, CloseConn c ∉ effects (call Sample.w_no_key "22" "/k/id_rsa" "h1" "u1").
Proof.
  apply (close_after_failed_open Sample.w_no_key "22" "/k/id_rsa" "h1" "u1"
           [ReadKey "/k/id_rsa"] None "open /k/id_rsa: no such file or directory").
  reflexivity.
Defined.

Lemma call_writes_both_witness :
  stderr_of (effects (call Sample.w_no_crontab "22" "/k/id_rsa" "h1" "u1")) =
    line "ERROR: [Host] h1@u1" +:+ line "ERROR: [Host] h1@u1" +:+
    line "Process exited with status 1" ∧
  stdout_of (effects (call Sample.w_no_crontab "22" "/k/id_rsa" "h1" "u1")) =
    line "[Host] u1@h1" +:+ line ("[Content] " +:+ String LF "" +:+ Fmt.Sprintf "").
Proof.
  apply (call_writes_both Sample.w_no_crontab "22" "/k/id_rsa" "h1" "u1"
           [ReadKey "/k/id_rsa"; DialTCP "h1:22" "u1";
            OpenSession (mkClient "h1:22" "u1")]
           (Some (mkClientConfig "u1" [mkSigner "PRIVATE KEY"] true))
           (mkClient "h1:22" "u1") (mkSshSession (mkClient "h1:22" "u1")) None
           "" "Process exited with status 1"); reflexivity.
Defined.

(** C3 (fails on the code). A crontab line with a percent sign: the session
    opens, the command succeeds, and the block on standard output is not the
    header followed by the exact output; the formatter has rewritten the
    percent sign. *)
Theorem call_block_percent :
  let r := call Sample.w_percent "22" "/k/id_rsa" "h1" "u1" in
  outcome r = Return tt ∧
  stderr_of (effects r) = "" ∧
  stdout_of (effects r) =
    line "[Host] u1@h1" +:+
    line ("[Content] " +:+ String LF "" +:+ line "0 0 * * * date +\%!F(MISSING)") ∧
  stdout_of (effects r) ≠
    line "[Host] u1@h1" +:+
    line ("[Content] " +:+ String LF "" +:+ line "0 0 * * * date +\%F").
Proof.
  cbv zeta. split; [reflexivity|]. split; [reflexivity|]. split; [reflexivity|].
  apply String.eqb_neq. reflexivity.
Qed.

(** C4 (fails on the code). The error line names the host first and the
    user second: for user u1 on host h1 it reads h1@u1 and does not contain
    u1@h1, whether the key or the command fails. *)
Theorem call_error_line_order :
  stderr_of (effects (call Sample.w_no_key "22" "/k/id_rsa" "h1" "u1")) =
    line "ERROR: [Host] h1@u1" ∧
  is_infix "u1@h1"
    (stderr_of (effects (call Sample.w_no_key "22" "/k/id_rsa" "h1" "u1"))) = false ∧
  is_infix "u1@h1"
    (stderr_of (effects (call Sample.w_no_crontab "22" "/k/id_rsa" "h1" "u1"))) = false.
Proof. repeat split; reflexivity. Qed.

(** ** The process: the join *)

Section JoinFacts.

Variable w : World.
Variables port key : string.
Variable dests : list Dest.

Lemma pending_app g1 g2 : pending (g1 ++ g2) = pending g1 + pending g2.
Proof. induction g1 as [|e g1 IH]; cbn; [done|]. rewrite IH. lia. Qed.

Lemma pending_attempts l :
  Forall (fun e => is_attempt e = true) l -> pending l = 0.
Proof.
  induction 1 as [|e l He _ IH]; cbn; [done|]. rewrite IH. by destruct e.
Qed.

Lemma goroutine_return l : goroutine (l, Return tt) = l.
Proof. reflexivity. Qed.

Lemma goroutine_panic l msg : goroutine (l, Panicking msg) = l ++ [Fatal msg].
Proof. reflexivity. Qed.

(** The code of a goroutine: effects without [wg.Done()], then the one
    deferred [wg.Done()], then nothing, or the fatal error of the panic. *)
Lemma call_shape host user :
  ∃ pre tail,
    goroutine (call w port key host user) = pre ++ WgDone :: tail ∧
    pending pre = 0 ∧ (tail = [] ∨ tail = [Fatal nilDeref]).
Proof.
  pose proof (NewSession_effects w host port user key) as Ha.
  destruct (NewSession_cases w host port user key)
    as [(l & e & H)|(l & cfg & c & x & H)]; rewrite H in Ha; cbn in Ha.
  - rewrite (call_open_failed _ _ _ _ _ _ _ _ H), goroutine_panic.
    exists (l ++ [error_line host user]), [Fatal nilDeref].
    rewrite <- !app_assoc. split; [done|]. split; [|by right].
    rewrite pending_app, (pending_attempts _ Ha). done.
  - rewrite (call_opened _ _ _ _ _ _ _ _ _ _ H), goroutine_return.
    set (mid := match (session_Output w x crontab_cmd).2 with
                | Some e => _ | None => _ end).
    set (header := Stdout (line ("[Host] " +:+ user +:+ "@" +:+ host))).
    set (content := Stdout (line _)).
    exists (l ++ [Exec x crontab_cmd] ++ mid
              ++ [header; content; CloseSession x; CloseConn c]), [].
    split; [|split; [|by left]].
    + rewrite <- !app_assoc. reflexivity.
    + rewrite !pending_app, (pending_attempts _ Ha).
      assert (pending mid = 0) as ->; [|reflexivity].
      subst mid. by destruct (session_Output w x crontab_cmd).2.
Qed.

Lemma pending_call host user :
  pending (goroutine (call w port key host user)) = 1.
Proof.
  destruct (call_shape host user) as (pre & tail & -> & Hpre & [->| ->]);
    rewrite pending_app, Hpre; done.
Qed.

Lemma suffix_cons_cases (g : list Effect) y l :
  g `suffix_of` y :: l -> g = y :: l ∨ g `suffix_of` l.
Proof.
  destruct g as [|x g]; [right; apply suffix_nil|]. apply suffix_cons_inv.
Qed.

Lemma suffix_after_done pre tail g :
  g `suffix_of` pre ++ WgDone :: tail -> pending g = 0 -> g `suffix_of` tail.
Proof.
  induction pre as [|x pre IH]; cbn; intros Hsuf Hg.
  - apply suffix_cons_cases in Hsuf as [->|Hsuf]; [done|done].
  - apply suffix_cons_cases in Hsuf as [->|Hsuf]; [|by apply IH].
    cbn in Hg. rewrite pending_app in Hg. cbn in Hg. lia.
Qed.

(** A goroutine that has called [wg.Done()] has run all of [call]: nothing
    is left of it but, after a panic, the fatal error. *)
Lemma after_done host user g :
  g `suffix_of` goroutine (call w port key host user) -> pending g = 0 ->
  g = [] ∨ g = [Fatal nilDeref].
Proof.
  destruct (call_shape host user) as (pre & tail & -> & Hpre & Htail).
  intros Hsuf Hg. apply suffix_after_done in Hsuf; [|done].
  destruct Htail as [->| ->].
  - left. by apply suffix_nil_inv.
  - apply suffix_cons_cases in Hsuf as [->|Hsuf]; [by right|].
    left. by apply suffix_nil_inv.
Qed.

Lemma sum_pending_insert (l : list (list Effect)) i e rest :
  l !! i = Some (e :: rest) ->
  sum_list_with pending (<[i:=rest]> l) + (if is_done e then 1 else 0) =
  sum_list_with pending l.
Proof.
  intros H. pose proof (lookup_lt_Some _ _ _ H) as Hlt.
  rewrite insert_take_drop by done.
  rewrite <- (take_drop_middle l i _ H) at 3.
  rewrite !sum_list_with_app. simpl.
  destruct (is_done e); lia.
Qed.

Lemma apply_effect_fields e q :
  pc (apply_effect e q) = pc q ∧ gs (apply_effect e q) = gs q ∧
  wg (apply_effect e q) = (wg q - if is_done e then 1 else 0)%Z ∧
  log (apply_effect e q) = log q ++ [e] ∧
  exited (apply_effect e q) ≠ Some 0%Z.
Proof.
  destruct e; cbn; try (repeat split; (done || lia)).
  destruct (wg q - 1 <? 0)%Z; cbn; repeat split; done.
Qed.

Lemma join_inv_init : join_inv w port key dests (fan_out dests).
Proof.
  split; cbn; try done.
  - f_equal. lia.
Qed.

Lemma join_inv_step p p' :
  join_inv w port key dests p -> steps_to w port key p p' ->
  join_inv w port key dests p'.
Proof.
  intros [Hs Hc He Hcode] [c Hstep]. unfold step in Hstep.
  destruct (exited p) eqn:Hex; [done|]. unfold unspawned in *.
  destruct c as [|i].
  - destruct (pc p) as [[|d r]|] eqn:Hpc.
    + injection Hstep as <-. split; cbn; done.
    + injection Hstep as <-. split; cbn; try done.
      * rewrite length_app. cbn.
        rewrite <- (drop_drop dests 1 (length (gs p))), Hs. done.
      * rewrite sum_list_with_app. cbn. rewrite pending_call.
        cbn in Hc. lia.
      * intros i g Hi. apply lookup_app_Some in Hi as [Hi|[Hlen Hi]].
        { by apply Hcode. }
        apply list_lookup_singleton_Some in Hi as [Hi <-].
        exists d. split; [|done].
        assert (i = length (gs p)) as -> by lia.
        pose proof (lookup_drop dests (length (gs p)) 0) as Hd.
        rewrite Hs in Hd. cbn in Hd. by rewrite Nat.add_0_r in Hd.
    + destruct (wg p =? 0)%Z eqn:Hz; [|done]. injection Hstep as <-.
      split; cbn; try done. intros _. split; [done|]. by apply Z.eqb_eq.
  - destruct (gs p !! i) as [[|e rest]|] eqn:Hg; try done.
    injection Hstep as <-.
    destruct (apply_effect_fields e
                (mkProc (pc p) (wg p) (<[i:=rest]> (gs p)) (log p) None))
      as (Hpc' & Hgs' & Hwg' & _ & Hex').
    cbn in Hpc', Hgs', Hwg'.
    split; unfold unspawned; rewrite ?Hpc', ?Hgs', ?Hwg'.
    + by rewrite length_insert.
    + pose proof (sum_pending_insert _ _ _ _ Hg) as Hsum.
      destruct (is_done e); lia.
    + intros H. by destruct Hex'.
    + intros j g Hj. destruct (decide (i = j)) as [->|Hne].
      * rewrite list_lookup_insert_eq in Hj by (by eapply lookup_lt_Some).
        injection Hj as <-.
        destruct (Hcode _ _ Hg) as (d & Hd & Hsuf).
        exists d. split; [done|]. by eapply suffix_cons_l.
      * rewrite list_lookup_insert_ne in Hj by done. by apply Hcode.
Qed.

Lemma join_inv_reach p :
  rtc (steps_to w port key) (fan_out dests) p -> join_inv w port key dests p.
Proof.
  revert p. apply rtc_ind_r.
  - apply join_inv_init.
  - intros y z _ Hstep IH. by eapply join_inv_step.
Qed.

(** The join barrier: when [main] has returned (exit status 0), a
    goroutine has been started for every destination and each of them has
    run [call] to its end, the deferred [wg.Done()] included. *)
Theorem join_barrier p :
  rtc (steps_to w port key) (fan_out dests) p ->
  exited p = Some 0%Z ->
  length (gs p) = length dests ∧
  Forall (fun g => g = [] ∨ g = [Fatal nilDeref]) (gs p).
Proof.
  intros Hreach Hex. destruct (join_inv_reach _ Hreach) as [Hs Hc He Hcode].
  destruct (He Hex) as [Hpc Hwg]. unfold unspawned in *. rewrite Hpc in *.
  cbn in Hc.
  assert (sum_list_with pending (gs p) = 0) as Hsum by lia.
  split.
  - apply drop_nil_inv in Hs.
    assert (length (gs p) <= length dests); [|lia].
    destruct (decide (length (gs p) <= length dests)) as [|Hgt]; [done|].
    assert (is_Some (gs p !! length dests)) as [g Hg].
    { apply lookup_lt_is_Some. lia. }
    destruct (Hcode _ _ Hg) as (d & Hd & _).
    apply lookup_lt_Some in Hd. lia.
  - apply Forall_lookup. intros i g Hg.
    destruct (Hcode _ _ Hg) as (d & Hd & Hsuf).
    eapply after_done; [done|].
    pose proof (sum_list_with_in g pending (gs p)
                  (list_elem_of_lookup_2 _ _ _ Hg)). lia.
Qed.

End JoinFacts.

(** ** The loader *)

Section JsonFacts.
Import Json.

(** No key selects both fields. *)
Lemma selects_host_not_user key :
  selects "host" key = true -> selects "user" key = false.
Proof.
  unfold selects. intros H. apply String.eqb_eq in H. rewrite H. reflexivity.
Qed.

Lemma setField_ok d m :
  member_ok m = true ->
  setField d m.1 m.2 =
    inl (mkDest (last_string "host" (Host d) [m]) (last_string "user" (User d) [m])).
Proof.
  destruct m as [key v]. unfold member_ok, setField. cbn [fst snd last_string].
  destruct (selects "host" key) eqn:Hh.
  - rewrite (selects_host_not_user _ Hh). cbn [orb].
    destruct v; try done; by destruct d.
  - cbn [orb]. destruct (selects "user" key); [|by destruct d].
    destruct v; try done; by destruct d.
Qed.

Lemma setField_bad d m :
  member_ok m = false -> ∃ e, setField d m.1 m.2 = inr e.
Proof.
  destruct m as [key v]. unfold member_ok, setField. cbn [fst snd].
  destruct (selects "host" key); cbn [orb].
  - destruct v; try done; by eexists.
  - destruct (selects "user" key); [|done].
    destruct v; try done; by eexists.
Qed.

Lemma setFields_ok fields : ∀ d,
  forallb member_ok fields = true ->
  setFields d fields =
    inl (mkDest (last_string "host" (Host d) fields)
                (last_string "user" (User d) fields)).
Proof.
  induction fields as [|[key v] fields IH]; intros d; cbn [forallb].
  - by destruct d.
  - intros [Hm Hrest]%andb_prop.
    pose proof (setField_ok d (key, v) Hm) as Hf. cbn [fst snd] in Hf.
    cbn [setFields]. rewrite Hf, (IH _ Hrest). reflexivity.
Qed.

Lemma setFields_bad fields : ∀ d,
  forallb member_ok fields = false -> ∃ e, setFields d fields = inr e.
Proof.
  induction fields as [|[key v] fields IH]; intros d; cbn [forallb]; [done|].
  intros H. cbn [setFields].
  destruct (member_ok (key, v)) eqn:Hm.
  - pose proof (setField_ok d (key, v) Hm) as Hf. cbn [fst snd] in Hf.
    rewrite Hf. apply IH. by rewrite <- H.
  - destruct (setField_bad d (key, v) Hm) as [e He]. cbn [fst snd] in He.
    rewrite He. by eexists.
Qed.

Lemma unmarshalDest_ok v :
  element_ok v = true -> unmarshalDest v = inl (decoded_element v).
Proof. destruct v; try done. cbn. apply setFields_ok. Qed.

Lemma unmarshalDest_bad v :
  element_ok v = false -> ∃ e, unmarshalDest v = inr e.
Proof.
  destruct v; try done; cbn; try by eexists. apply setFields_bad.
Qed.

Lemma unmarshalDests_ok xs :
  forallb element_ok xs = true ->
  unmarshalDests xs = inl (map decoded_element xs).
Proof.
  induction xs as [|x xs IH]; cbn [forallb]; [done|].
  intros [Hx Hxs]%andb_prop. cbn [unmarshalDests map].
  by rewrite (unmarshalDest_ok _ Hx), (IH Hxs).
Qed.

Lemma unmarshalDests_bad xs :
  forallb element_ok xs = false -> ∃ e, unmarshalDests xs = inr e.
Proof.
  induction xs as [|x xs IH]; cbn [forallb]; [done|].
  intros H. cbn [unmarshalDests].
  destruct (element_ok x) eqn:Hx.
  - rewrite (unmarshalDest_ok _ Hx).
    destruct IH as [e He]; [by rewrite <- H|]. rewrite He. by eexists.
  - destruct (unmarshalDest_bad _ Hx) as [e He]. rewrite He. by eexists.
Qed.

(** The decoder accepts exactly the values described by [decodable], and
    returns their elements in the order of the file. *)
Lemma Unmarshal_decodable v :
  if decodable v then Unmarshal v = inl (decoded v)
  else ∃ e, Unmarshal v = inr e.
Proof.
  destruct v; cbn; try done; try by eexists.
  destruct (forallb element_ok xs) eqn:H.
  - by apply unmarshalDests_ok.
  - by apply unmarshalDests_bad.
Qed.

End JsonFacts.

(** ** The process: exit status *)

Section ExitFacts.

Variable w : World.
Variables port key : string.
Variable dests : list Dest.

(** Only a goroutine whose [NewSession] failed ends in a fatal error. *)
Lemma fatal_needs_failed_open host user msg :
  Fatal msg ∈ goroutine (call w port key host user) ->
  ∃ l e, NewSession w host port user key = (l, Return (None, Some e)).
Proof.
  pose proof (NewSession_effects w host port user key) as Ha.
  destruct (NewSession_cases w host port user key)
    as [(l & e & H)|(l & cfg & c & x & H)]; [by eauto|].
  rewrite H in Ha. cbn [effects fst] in Ha.
  rewrite (call_opened _ _ _ _ _ _ _ _ _ _ H), goroutine_return.
  intros Hin. exfalso.
  apply elem_of_app in Hin as [Hin|Hin].
  { rewrite Forall_forall in Ha. by specialize (Ha _ Hin). }
  apply elem_of_cons in Hin as [Hin|Hin]; [done|].
  apply elem_of_app in Hin as [Hin|Hin].
  - destruct (session_Output w x crontab_cmd).2.
    + unfold error_line in Hin. rewrite !elem_of_cons, elem_of_nil in Hin.
      destruct Hin as [?|[?|[?|[]]]]; discriminate.
    + by apply elem_of_nil in Hin.
  - rewrite !elem_of_cons, elem_of_nil in Hin.
    destruct Hin as [?|[?|[?|[?|[?|[]]]]]]; discriminate.
Qed.

(** The exit status of the fan-out is 0, or 2 when the goroutine of some
    destination ran into a failed [NewSession]; an error of the remote
    command alone never changes it. *)
Theorem exit_status_cases p code :
  rtc (steps_to w port key) (fan_out dests) p ->
  exited p = Some code ->
  code = 0%Z ∨
  (code = 2%Z ∧
   ∃ d l e, d ∈ dests ∧
     NewSession w (Host d) port (User d) key = (l, Return (None, Some e))).
Proof.
  intros Hreach Hex.
  apply rtc_inv_r in Hreach as [<-|(y & Hreach & [c Hstep])]; [done|].
  destruct (join_inv_reach _ _ _ _ _ Hreach) as [Hs Hc He Hcode].
  unfold step in Hstep. destruct (exited y) eqn:Hexy; [done|].
  destruct c as [|i].
  - destruct (pc y) as [[|d r]|].
    + injection Hstep as <-. done.
    + injection Hstep as <-. done.
    + destruct (wg y =? 0)%Z; [|done]. injection Hstep as <-.
      left. cbn in Hex. congruence.
  - destruct (gs y !! i) as [[|e rest]|] eqn:Hg; try done.
    injection Hstep as <-.
    destruct (Hcode _ _ Hg) as (d & Hd & Hsuf).
    destruct e; cbn in Hex; try done.
    + (* wg.Done(): the counter stays non-negative *)
      pose proof (sum_list_with_in _ pending _ (list_elem_of_lookup_2 _ _ _ Hg))
        as Hle.
      cbn in Hle.
      destruct (wg y - 1 <? 0)%Z eqn:Hneg; cbn in Hex; [|done].
      apply Z.ltb_lt in Hneg. lia.
    + (* the fatal error of a panic *)
      right. injection Hex as <-. split; [done|].
      destruct (fatal_needs_failed_open (Host d) (User d) msg) as (l & e & H).
      { destruct Hsuf as [k ->]. apply elem_of_app. right. by left. }
      exists d, l, e. split; [by eapply list_elem_of_lookup_2|done].
Qed.

End ExitFacts.

(** ** Claims on [main] *)

Section MainClaims.

Variable w : World.

Lemma exec_reaches port key sched : ∀ p,
  rtc (steps_to w port key) p (exec w port key sched p).
Proof.
  induction sched as [|c sched IH]; intros p; cbn; [done|].
  destruct (step w port key c p) as [p'|] eqn:E; [|done].
  eapply rtc_l; [by exists c|apply IH].
Qed.

(** Nothing moves once the process has exited. *)
Lemma exec_exited port key sched p code :
  exited p = Some code -> exec w port key sched p = p.
Proof.
  intros Hex. induction sched as [|c sched IH]; cbn; [done|].
  unfold step. by rewrite Hex.
Qed.

(** Every run is a reachable state. *)
Lemma main_run_reaches fl args sched :
  main_reaches w fl args (main w fl args sched).
Proof.
  unfold main_reaches, main.
  destruct (main_start w fl args); [done|apply exec_reaches].
Qed.

Lemma main_start_load_error fl path e :
  help fl = false -> loadDests w path = inr e ->
  main_start w fl [path] = Exits 1 [Stderr (line e)].
Proof. intros Hh Hl. unfold main_start. by rewrite Hh, Hl. Qed.

(** C6 (amended). The loader fails, and [main] exits with status 1,
    whenever the file cannot be opened or the decoder reports an error: an
    error of the scanner, or a value that is not [decodable].  A decodable
    value is [null] or an array whose elements are [null] or objects in
    which every member named host or user (up to case) is a string or
    [null]; a missing field is the empty string.  On success the
    destinations are those of the file, in the order of the file. *)
Theorem loader_contract fl path :
  help fl = false ->
  match os_Open w path with
  | inr e =>
      loadDests w path = inr e ∧
      main_start w fl [path] = Exits 1 [Stderr (line e)]
  | inl file =>
      match json_Scan w file with
      | inr e =>
          loadDests w path = inr e ∧
          main_start w fl [path] = Exits 1 [Stderr (line e)]
      | inl v =>
          if Json.decodable v
          then loadDests w path = inl (Json.decoded v)
          else ∃ e, loadDests w path = inr e ∧
                    main_start w fl [path] = Exits 1 [Stderr (line e)]
      end
  end.
Proof.
  intros Hh.
  destruct (os_Open w path) as [file|e] eqn:Ho.
  - destruct (json_Scan w file) as [v|e] eqn:Hs.
    + pose proof (Unmarshal_decodable v) as Hd.
      assert (loadDests w path = Json.Unmarshal v) as Hl.
      { unfold loadDests, Decode. by rewrite Ho, Hs. }
      destruct (Json.decodable v).
      * by rewrite Hl.
      * destruct Hd as [e He]. exists e. rewrite <- Hl in He.
        split; [done|]. by apply main_start_load_error.
    + assert (loadDests w path = inr e) as Hl.
      { unfold loadDests, Decode. by rewrite Ho, Hs. }
      split; [done|]. by apply main_start_load_error.
  - assert (loadDests w path = inr e) as Hl.
    { unfold loadDests. by rewrite Ho. }
    split; [done|]. by apply main_start_load_error.
Qed.

(** C8 (amended). A configuration file that opens but does not decode (the
    decoder returns an error for its first JSON value), given without [-h]
    as the one argument: the process exits with status 1, no goroutine is
    started and no step of a connection is ever taken. *)
Theorem malformed_config_exits fl path file e :
  help fl = false ->
  os_Open w path = inl file ->
  Decode w file = inr e ->
  (∀ p, main_reaches w fl [path] p ->
        exited p = Some 1%Z ∧ gs p = [] ∧ attempts (log p) = []) ∧
  (∀ sched, exited (main w fl [path] sched) = Some 1%Z).
Proof.
  intros Hh Ho Hd.
  assert (main_start w fl [path] = Exits 1 [Stderr (line e)]) as Hm.
  { apply main_start_load_error; [done|]. unfold loadDests. by rewrite Ho. }
  split.
  - intros p Hp. unfold main_reaches in Hp. rewrite Hm in Hp. by subst p.
  - intros sched. unfold main. by rewrite Hm.
Qed.

(** The three states of a fan-out over no destination. *)
Lemma empty_fan_out_states port key p :
  rtc (steps_to w port key) (fan_out []) p ->
  p = fan_out [] ∨ p = mkProc Waiting 0 [] [] None ∨
  p = mkProc Waiting 0 [] [] (Some 0%Z).
Proof.
  revert p. apply rtc_ind_r; [by left|].
  intros y z _ [c Hstep] IH. unfold step in Hstep.
  destruct IH as [->|[->| ->]]; cbn in Hstep; [| |done].
  - destruct c; [|done]. injection Hstep as <-. by right; left.
  - destruct c; [|done]. injection Hstep as <-. by right; right.
Qed.

(** C9 (amended). When the file decodes to the empty list, and the key
    path is given or the home directory is known, there is no work: no
    goroutine, nothing written, nothing else done, and [main] exits with
    status 0 after its two steps (the empty loop and [wg.Wait()]). *)
Theorem empty_list_no_work fl path :
  help fl = false ->
  loadDests w path = inl [] ->
  privateKey fl ≠ "" ∨ (∃ home, homedir_Dir w = inl home) ->
  (∀ p, main_reaches w fl [path] p ->
        log p = [] ∧ gs p = [] ∧ (exited p = None ∨ exited p = Some 0%Z)) ∧
  (∀ sched,
      exited (main w fl [path] (MainStep :: MainStep :: sched)) = Some 0%Z).
Proof.
  intros Hh Hl Hkey.
  assert (∃ k prt, main_start w fl [path] = FansOut k prt []) as (k & prt & Hm).
  { unfold main_start. rewrite Hh, Hl.
    destruct (String.eqb_spec (privateKey fl) "") as [Heq|Hne].
    - destruct Hkey as [Hkey|[home Hhome]]; [done|]. rewrite Hhome. by eexists _, _.
    - by eexists _, _. }
  split.
  - intros p Hp. unfold main_reaches in Hp. rewrite Hm in Hp.
    apply empty_fan_out_states in Hp as [->|[->| ->]]; cbn; auto.
  - intros sched. unfold main. rewrite Hm.
    change (exec w prt k (MainStep :: MainStep :: sched) (fan_out []))
      with (exec w prt k sched (mkProc Waiting 0 [] [] (Some 0%Z))).
    by rewrite (exec_exited prt k sched _ 0%Z).
Qed.

End MainClaims.

(** The witnesses. *)
Lemma loader_contract_witness :
  help Sample.flags = false ∧
  loadDests Sample.w_h2_down "dests.json" = inl [mkDest "h1" "u1"; mkDest "h2" "u2"].
Proof.
  split; [reflexivity|].
  exact (loader_contract Sample.w_h2_down Sample.flags "dests.json" eq_refl).
Defined.

Lemma malformed_config_exits_witness :
  Decode Sample.w_syntax_error "dests.json" =
    inr "invalid character '}' looking for beginning of value" ∧
  exited (main Sample.w_syntax_error Sample.flags ["dests.json"]
            [MainStep; GoStep 0; MainStep]) = Some 1%Z.
Proof.
  split; [reflexivity|].
  apply (malformed_config_exits Sample.w_syntax_error Sample.flags "dests.json"
           "dests.json" "invalid character '}' looking for beginning of value");
    reflexivity.
Defined.

Lemma empty_list_no_work_witness :
  loadDests Sample.w_empty_no_home "dests.json" = inl [] ∧
  exited (main Sample.w_empty_no_home Sample.flags ["dests.json"]
            [MainStep; MainStep]) = Some 0%Z.
Proof.
  split; [reflexivity|].
  apply (empty_list_no_work Sample.w_empty_no_home Sample.flags "dests.json");
    [reflexivity|reflexivity|left; discriminate].
Defined.

(** C6 (fails as stated). An array holding one object with neither a host
    nor a user is not a sequence of objects each containing both fields, and
    the loader accepts it: [main] goes on to the fan-out with one
    destination whose host and user are empty. *)
Lemma loader_accepts_empty_object :
  Json.spec_destinations (Json.Array [Json.Object []]) = false ∧
  loadDests Sample.w_empty_object "dests.json" = inl [mkDest "" ""] ∧
  main_start Sample.w_empty_object Sample.flags ["dests.json"] =
    FansOut "/k/id_rsa" "22" [mkDest "" ""].
Proof. repeat split; reflexivity. Qed.

(** C8 (fails as stated). The file holds a list of one destination followed
    by a stray closing bracket, so it is not a JSON text.  The decoder is
    asked for one value and returns the list without an error; the bracket
    is never read.  [main] fans out: the key is read, the host is dialled,
    the command is run, and the exit status is 0. *)
Lemma trailing_data_accepted :
  json_document Sample.w_trailing "dests.json" = false ∧
  Decode Sample.w_trailing "dests.json" = inl [mkDest "h1" "u1"] ∧
  exited (main Sample.w_trailing Sample.flags ["dests.json"] Sample.one_turn) =
    Some 0%Z ∧
  attempts (log (main Sample.w_trailing Sample.flags ["dests.json"]
                   Sample.one_turn)) =
    [ ReadKey "/k/id_rsa"; DialTCP "h1:22" "u1";
      OpenSession (mkClient "h1:22" "u1");
      Exec (mkSshSession (mkClient "h1:22" "u1")) crontab_cmd ].
Proof. repeat split; reflexivity. Qed.

(** C9 (fails as stated). The file decodes to the empty list, no key path
    is given and the home directory is unknown: an error is written and the
    exit status is 1. *)
Lemma empty_list_home_unknown :
  loadDests Sample.w_empty_no_home "dests.json" = inl [] ∧
  exited (main Sample.w_empty_no_home Sample.flags_no_key ["dests.json"]
            [MainStep; MainStep]) = Some 1%Z ∧
  stderr_of (log (main Sample.w_empty_no_home Sample.flags_no_key
                    ["dests.json"] [MainStep; MainStep])) =
    line "missing user home directory".
Proof. repeat split; reflexivity. Qed.

(** C5 (fails on the code). Two destinations and a key file that cannot be
    read.  The goroutine of the first destination panics: the process ends
    with status 2 while the goroutine of the second destination has not been
    started (first run), or has been started and has not taken a step
    (second run). *)
Theorem crash_before_join :
  let run := main Sample.w_no_key Sample.flags ["dests.json"] in
  let p1 := run [MainStep; GoStep 0; GoStep 0; GoStep 0; GoStep 0] in
  let p2 := run [MainStep; MainStep; MainStep;
                 GoStep 0; GoStep 0; GoStep 0; GoStep 0] in
  (exited p1 = Some 2%Z ∧ length (gs p1) = 1 ∧
   pc p1 = Spawning [mkDest "h2" "u2"]) ∧
  (exited p2 = Some 2%Z ∧ length (gs p2) = 2 ∧ pc p2 = Waiting ∧
   gs p2 !! 1 =
     Some (goroutine (call Sample.w_no_key "22" "/k/id_rsa" "h2" "u2"))).
Proof. cbv zeta. repeat split; reflexivity. Qed.

(** C7 (fails on the code). Host h1 is up and host h2 refuses the
    connection.  When the goroutine of h2 runs first, its connection error
    is printed and then ends the process with status 2; the goroutine of h1
    is cut off before its first step and its block never appears. *)
Theorem connection_error_ends_process :
  let p := main Sample.w_h2_down Sample.flags ["dests.json"]
             [MainStep; MainStep; MainStep;
              GoStep 1; GoStep 1; GoStep 1; GoStep 1; GoStep 1] in
  exited p = Some 2%Z ∧
  stderr_of (log p) = line "ERROR: [Host] h2@u2" ∧
  stdout_of (log p) = "" ∧
  gs p !! 0 = Some (goroutine (call Sample.w_h2_down "22" "/k/id_rsa" "h1" "u1")).
Proof. cbv zeta. repeat split; reflexivity. Qed.

(** * Further properties of the code *)

(** ** [NewSession] and [call], one destination *)

Section UnitExtras.

Variable w : World.
Variables port key : string.

(** [NewSession] reads the key first.  It dials, once, the address
    [ip:port] as [user], and only when the key was read and parsed; it asks
    for a session only on the connection it was given. *)
Theorem NewSession_trace ip user :
  (effects (NewSession w ip port user key) = [ReadKey key] ∧
   ∀ buf, ioutil_ReadFile w key = inl buf ->
          ∃ e, ssh_ParsePrivateKey w buf = inr e) ∨
  (∃ buf k, ioutil_ReadFile w key = inl buf ∧
            ssh_ParsePrivateKey w buf = inl k ∧
     ((effects (NewSession w ip port user key) =
         [ReadKey key; DialTCP (ip +:+ ":" +:+ port) user] ∧
       ∃ e, ssh_Dial w "tcp" (ip +:+ ":" +:+ port)
              (mkClientConfig user [k] true) = inr e) ∨
      (∃ c, ssh_Dial w "tcp" (ip +:+ ":" +:+ port)
              (mkClientConfig user [k] true) = inl c ∧
            effects (NewSession w ip port user key) =
              [ReadKey key; DialTCP (ip +:+ ":" +:+ port) user; OpenSession c]))).
Proof.
  unfold NewSession.
  destruct (ioutil_ReadFile w key) as [buf|e] eqn:Hr.
  - destruct (ssh_ParsePrivateKey w buf) as [k|e] eqn:Hp.
    + right. exists buf, k. split; [done|]. split; [done|]. cbn.
      destruct (ssh_Dial w "tcp" _ _) as [c|e] eqn:Hd.
      * right. exists c. split; [done|]. cbn.
        by destruct (conn_NewSession w c).
      * left. split; [done|]. by exists e.
    + left. split; [done|]. intros buf' [= <-]. by exists e.
  - left. split; [done|]. by intros buf' [=].
Qed.

End UnitExtras.

Section UnitHelpers.

Variable w : World.
Variables port key : string.

(** The three kinds of effects of [NewSession]. *)
Lemma NewSession_effect_kinds ip user e :
  e ∈ effects (NewSession w ip port user key) ->
  e = ReadKey key ∨ e = DialTCP (ip +:+ ":" +:+ port) user ∨
  ∃ c, e = OpenSession c.
Proof.
  unfold NewSession.
  destruct (ioutil_ReadFile w key) as [buf|e1]; cbn.
  2:{ rewrite elem_of_cons, elem_of_nil. intuition. }
  destruct (ssh_ParsePrivateKey w buf) as [k|e1]; cbn.
  2:{ rewrite elem_of_cons, elem_of_nil. intuition. }
  destruct (ssh_Dial w "tcp" _ _) as [c|e1]; cbn.
  2:{ rewrite !elem_of_cons, elem_of_nil. intuition. }
  destruct (conn_NewSession w c) as [x|e1]; cbn;
    rewrite !elem_of_cons, elem_of_nil; intuition eauto.
Qed.

Lemma NewSession_no_exec ip user x cmd :
  Exec x cmd ∉ effects (NewSession w ip port user key).
Proof.
  intros Hin. apply NewSession_effect_kinds in Hin as [?|[?|[c ?]]]; discriminate.
Qed.

End UnitHelpers.

Section UnitExtras2.

Variable w : World.
Variables port key : string.

(** A destination whose session cannot be opened: nothing is written to
    standard output, the remote command is never run, and exactly one line
    goes to the error stream before [wg.Done()]. *)
Theorem call_failed_open_quiet host user l s e :
  NewSession w host port user key = (l, Return (s, Some e)) ->
  stdout_of (effects (call w port key host user)) = "" ∧
  (∀ x cmd, Exec x cmd ∉ effects (call w port key host user)) ∧
  ∃ msg, effects (call w port key host user) = l ++ [Stderr msg; WgDone].
Proof.
  intros H. rewrite (call_open_failed _ _ _ _ _ _ _ _ H). cbn [effects fst].
  pose proof (NewSession_effects w host port user key) as Ha.
  rewrite H in Ha. cbn [effects fst] in Ha.
  destruct (attempts_silent _ Ha) as [Ho _].
  split; [by rewrite stdout_of_app, Ho|]. split; [|by eexists].
  intros x cmd Hin. apply elem_of_app in Hin as [Hin|Hin].
  - pose proof (NewSession_no_exec w port key host user x cmd) as Hn.
    rewrite H in Hn. by apply Hn.
  - unfold error_line in Hin. rewrite !elem_of_cons, elem_of_nil in Hin.
    intuition discriminate.
Qed.

(** On every path, also when it panics, [call] calls [wg.Done()] exactly
    once, and as the last thing it does. *)
Theorem call_done_once host user :
  ∃ pre, effects (call w port key host user) = pre ++ [WgDone] ∧
         pending pre = 0.
Proof.
  pose proof (NewSession_effects w host port user key) as Ha.
  destruct (NewSession_cases w host port user key)
    as [(l & e & H)|(l & cfg & c & x & H)];
    rewrite H in Ha; cbn [effects fst] in Ha.
  - rewrite (call_open_failed _ _ _ _ _ _ _ _ H). cbn [effects fst].
    exists (l ++ [error_line host user]). split; [by rewrite <- app_assoc|].
    by rewrite pending_app, (pending_attempts _ Ha).
  - rewrite (call_opened _ _ _ _ _ _ _ _ _ _ H). cbn [effects fst].
    set (mid := match (session_Output w x crontab_cmd).2 with
                | Some e => _ | None => _ end).
    set (header := Stdout (line ("[Host] " +:+ user +:+ "@" +:+ host))).
    set (content := Stdout (line _)).
    exists (l ++ [Exec x crontab_cmd] ++ mid
              ++ [header; content; CloseSession x; CloseConn c]).
    split; [rewrite <- !app_assoc; reflexivity|].
    rewrite !pending_app, (pending_attempts _ Ha).
    assert (pending mid = 0) as ->; [|reflexivity].
    subst mid. by destruct (session_Output w x crontab_cmd).2.
Qed.

(** A session that was opened is closed, whether the command succeeds or
    fails: [call] returns without a panic, and its last three effects are
    closing the command channel, closing the connection and [wg.Done()];
    nothing is closed before. *)
Theorem call_closes_session host user l cfg c x pipe :
  NewSession w host port user key =
    (l, Return (Some (mkSession cfg (Some c) (Some x) pipe), None)) ->
  outcome (call w port key host user) = Return tt ∧
  ∃ pre, effects (call w port key host user) =
           pre ++ [CloseSession x; CloseConn c; WgDone] ∧
         Forall (fun e => is_close e = false) pre.
Proof.
  intros H. rewrite (call_opened _ _ _ _ _ _ _ _ _ _ H). split; [done|].
  cbn [effects fst].
  pose proof (NewSession_effects w host port user key) as Ha.
  rewrite H in Ha. cbn [effects fst] in Ha.
  set (mid := match (session_Output w x crontab_cmd).2 with
              | Some e => _ | None => _ end).
  set (header := Stdout (line ("[Host] " +:+ user +:+ "@" +:+ host))).
  set (content := Stdout (line _)).
  exists (l ++ [Exec x crontab_cmd] ++ mid ++ [header; content]).
  split; [rewrite <- !app_assoc; reflexivity|].
  rewrite !Forall_app. repeat split.
  - eapply Forall_impl; [exact Ha|]. intros e0 He0. by destruct e0.
  - by repeat constructor.
  - subst mid. destruct (session_Output w x crontab_cmd).2; by repeat constructor.
  - by repeat constructor.
Qed.

End UnitExtras2.

Lemma call_failed_open_quiet_witness :
  NewSession Sample.w_h2_down "h2" "22" "u2" "/k/id_rsa" =
    ([ReadKey "/k/id_rsa"; DialTCP "h2:22" "u2"],
     Return (None, Some "dial tcp h2:22: connect: connection refused")) ∧
  (stdout_of (effects (call Sample.w_h2_down "22" "/k/id_rsa" "h2" "u2")) = "" ∧
   (∀ x cmd,
      Exec x cmd ∉ effects (call Sample.w_h2_down "22" "/k/id_rsa" "h2" "u2")) ∧
   ∃ msg, effects (call Sample.w_h2_down "22" "/k/id_rsa" "h2" "u2") =
            [ReadKey "/k/id_rsa"; DialTCP "h2:22" "u2"] ++ [Stderr msg; WgDone]).
Proof.
  split; [reflexivity|].
  apply (call_failed_open_quiet Sample.w_h2_down "22" "/k/id_rsa" "h2" "u2"
           [ReadKey "/k/id_rsa"; DialTCP "h2:22" "u2"] None
           "dial tcp h2:22: connect: connection refused").
  reflexivity.
Defined.

Lemma call_closes_session_witness :
  NewSession Sample.w_no_crontab "h1" "22" "u1" "/k/id_rsa" =
    ([ReadKey "/k/id_rsa"; DialTCP "h1:22" "u1";
      OpenSession (mkClient "h1:22" "u1")],
     Return (Some (mkSession
                     (Some (mkClientConfig "u1" [mkSigner "PRIVATE KEY"] true))
                     (Some (mkClient "h1:22" "u1"))
                     (Some (mkSshSession (mkClient "h1:22" "u1"))) None),
             None)) ∧
  (outcome (call Sample.w_no_crontab "22" "/k/id_rsa" "h1" "u1") = Return tt ∧
   ∃ pre, effects (call Sample.w_no_crontab "22" "/k/id_rsa" "h1" "u1") =
            pre ++ [CloseSession (mkSshSession (mkClient "h1:22" "u1"));
                    CloseConn (mkClient "h1:22" "u1"); WgDone] ∧
          Forall (fun e => is_close e = false) pre).
Proof.
  split; [reflexivity|].
  apply (call_closes_session Sample.w_no_crontab "22" "/k/id_rsa" "h1" "u1"
           [ReadKey "/k/id_rsa"; DialTCP "h1:22" "u1";
            OpenSession (mkClient "h1:22" "u1")]
           (Some (mkClientConfig "u1" [mkSigner "PRIVATE KEY"] true))
           (mkClient "h1:22" "u1") (mkSshSession (mkClient "h1:22" "u1")) None).
  reflexivity.
Defined.

Lemma call_block_plain_witness :
  contains_byte "%" Sample.true_job = false ∧
  stdout_of (effects (call Sample.w_h2_down "22" "/k/id_rsa" "h1" "u1")) =
    line "[Host] u1@h1" +:+
    line ("[Content] " +:+ String LF "" +:+ Sample.true_job) ∧
  stderr_of (effects (call Sample.w_h2_down "22" "/k/id_rsa" "h1" "u1")) = "".
Proof.
  split; [reflexivity|].
  apply (call_block_plain Sample.w_h2_down "22" "/k/id_rsa" "h1" "u1"
           [ReadKey "/k/id_rsa"; DialTCP "h1:22" "u1";
            OpenSession (mkClient "h1:22" "u1")]
           (Some (mkClientConfig "u1" [mkSigner "PRIVATE KEY"] true))
           (mkClient "h1:22" "u1") (mkSshSession (mkClient "h1:22" "u1")) None
           Sample.true_job); reflexivity.
Defined.

(** ** The whole process *)

Section ProcHelpers.

Variable w : World.
Variables port key : string.
Variable dests : list Dest.

Lemma goroutine_effects (m : Go unit) :
  goroutine m =
  effects m ++ match outcome m with
               | Panicking msg => [Fatal msg]
               | Return _ => []
               end.
Proof. destruct m as [l [[]|msg]]; cbn; by rewrite ?app_nil_r. Qed.

(** The fatal error is the runtime's: [call] itself has no such effect. *)
Lemma call_no_fatal host user :
  Forall (fun e => is_fatal e = false) (effects (call w port key host user)).
Proof.
  pose proof (NewSession_effects w host port user key) as Ha.
  assert (∀ l, Forall (fun e => is_attempt e = true) l ->
               Forall (fun e => is_fatal e = false) l) as Hatt.
  { intros l Hl. eapply Forall_impl; [exact Hl|]. intros e0 He0. by destruct e0. }
  destruct (NewSession_cases w host port user key)
    as [(l & e & H)|(l & cfg & c & x & H)];
    rewrite H in Ha; cbn [effects fst] in Ha.
  - rewrite (call_open_failed _ _ _ _ _ _ _ _ H). cbn [effects fst].
    apply Forall_app. split; [by apply Hatt|by repeat constructor].
  - rewrite (call_opened _ _ _ _ _ _ _ _ _ _ H). cbn [effects fst].
    rewrite !Forall_app. repeat split; [by apply Hatt|by repeat constructor| |].
    + destruct (session_Output w x crontab_cmd).2; by repeat constructor.
    + by repeat constructor.
Qed.

Lemma filter_all {A} (P : A -> Prop) `{!∀ x, Decision (P x)} (l : list A) :
  Forall P l -> filter P l = l.
Proof.
  induction 1 as [|x l Hx _ IH]; [done|].
  rewrite filter_cons_True by done. by rewrite IH.
Qed.

Lemma filter_none {A} (P : A -> Prop) `{!∀ x, Decision (P x)} (l : list A) :
  Forall (fun x => ¬ P x) l -> filter P l = [].
Proof.
  induction 1 as [|x l Hx _ IH]; [done|].
  by rewrite filter_cons_False by done.
Qed.

(** Without the fatal errors, the code of a goroutine is [call]. *)
Lemma unit_of_filter d :
  filter (fun e => is_fatal e = false) (unit_of w port key d) =
  effects (call w port key (Host d) (User d)).
Proof.
  unfold unit_of. rewrite goroutine_effects, filter_app.
  rewrite (filter_all _ _ (call_no_fatal _ _)).
  destruct (outcome _); cbn; by rewrite app_nil_r.
Qed.

(** A dial found in the code of a goroutine is the dial of its
    destination. *)
Lemma dial_in_unit d a u :
  DialTCP a u ∈ unit_of w port key d ->
  a = Host d +:+ ":" +:+ port ∧ u = User d.
Proof.
  unfold unit_of. rewrite goroutine_effects. intros Hin.
  apply elem_of_app in Hin as [Hin|Hin].
  2:{ destruct (outcome _); rewrite ?elem_of_cons, elem_of_nil in Hin;
        intuition discriminate. }
  assert (DialTCP a u ∈ effects (NewSession w (Host d) port (User d) key)) as HN.
  { destruct (NewSession_cases w (Host d) port (User d) key)
      as [(l & e & H)|(l & cfg & c & x & H)]; rewrite H; cbn [effects fst].
    - rewrite (call_open_failed _ _ _ _ _ _ _ _ H) in Hin. cbn [effects fst] in Hin.
      apply elem_of_app in Hin as [Hin|Hin]; [done|].
      unfold error_line in Hin. rewrite !elem_of_cons, elem_of_nil in Hin.
      intuition discriminate.
    - rewrite (call_opened _ _ _ _ _ _ _ _ _ _ H) in Hin. cbn [effects fst] in Hin.
      apply elem_of_app in Hin as [Hin|Hin]; [done|].
      apply elem_of_cons in Hin as [Hin|Hin]; [discriminate|].
      apply elem_of_app in Hin as [Hin|Hin].
      + destruct (session_Output w x crontab_cmd).2;
          unfold error_line in Hin; rewrite ?elem_of_cons, elem_of_nil in Hin;
          intuition discriminate.
      + rewrite !elem_of_cons, elem_of_nil in Hin. intuition discriminate. }
  apply NewSession_effect_kinds in HN as [?|[HN|[c ?]]]; try discriminate.
  by injection HN as -> ->.
Qed.

(** What has been done and what is left to do make up, in some order, the
    code of the goroutines started so far; and a fatal error in the log has
    ended the process with status 2. *)
Lemma log_inv_reach p :
  rtc (steps_to w port key) (fan_out dests) p ->
  log p ++ concat (gs p) ≡ₚ
    concat (unit_of w port key <$> take (length (gs p)) dests) ∧
  ∀ msg, Fatal msg ∈ log p -> exited p = Some 2%Z.
Proof.
  revert p. apply rtc_ind_r.
  { split; [done|]. intros msg Hin. by apply elem_of_nil in Hin. }
  intros y z Hreach [c Hstep] [IH1 IH2].
  destruct (join_inv_reach _ _ _ _ _ Hreach) as [Hs _ _ _].
  unfold step in Hstep. destruct (exited y) eqn:Hex; [done|].
  assert (∀ msg, Fatal msg ∈ log y -> False) as Hnf.
  { intros msg Hin. specialize (IH2 _ Hin). congruence. }
  destruct c as [|i].
  - destruct (pc y) as [[|d r]|] eqn:Hpc.
    + injection Hstep as <-. cbn. split; [done|]. intros msg Hin. by destruct (Hnf _ Hin).
    + injection Hstep as <-. cbn. split; [|intros msg Hin; by destruct (Hnf _ Hin)].
      unfold unspawned in Hs. rewrite Hpc in Hs.
      assert (dests !! length (gs y) = Some d) as Hd.
      { pose proof (lookup_drop dests (length (gs y)) 0) as Hl.
        rewrite Hs in Hl. cbn in Hl. by rewrite Nat.add_0_r in Hl. }
      rewrite concat_app, length_app. cbn [length concat].
      rewrite Nat.add_1_r, (take_S_r _ _ _ Hd), fmap_app, concat_app.
      cbn [fmap list_fmap concat]. rewrite !app_nil_r, app_assoc.
      by rewrite IH1.
    + destruct (wg y =? 0)%Z; [|done]. injection Hstep as <-. cbn.
      split; [done|]. intros msg Hin. by destruct (Hnf _ Hin).
  - destruct (gs y !! i) as [[|e rest]|] eqn:Hg; try done.
    injection Hstep as <-.
    destruct (apply_effect_fields e
                (mkProc (pc y) (wg y) (<[i:=rest]> (gs y)) (log y) None))
      as (_ & Hgs' & _ & Hlog' & _).
    cbn [gs log] in Hgs', Hlog'. rewrite Hgs', Hlog'. split.
    + rewrite length_insert, <- IH1.
      rewrite insert_take_drop by (by eapply lookup_lt_Some).
      rewrite <- (take_drop_middle (gs y) i _ Hg) at 3.
      rewrite !concat_app. cbn [concat]. rewrite <- !app_assoc.
      apply Permutation_app_head. cbn [app].
      apply Permutation_middle.
    + intros msg Hin. apply elem_of_app in Hin as [Hin|Hin]; [by destruct (Hnf _ Hin)|].
      apply list_elem_of_singleton in Hin as <-. reflexivity.
Qed.

End ProcHelpers.

Section ProcHelpers2.

Variable w : World.
Variables port key : string.
Variable dests : list Dest.

Lemma elem_of_concat {A} (x : A) (ls : list (list A)) :
  x ∈ concat ls ↔ ∃ l, l ∈ ls ∧ x ∈ l.
Proof.
  rewrite list_elem_of_In, in_concat. split.
  - intros (l & Hl & Hx). exists l. by rewrite !list_elem_of_In.
  - intros (l & Hl & Hx). exists l. by rewrite <- !list_elem_of_In.
Qed.

Lemma filter_units (ds : list Dest) :
  filter (fun e => is_fatal e = false) (concat (unit_of w port key <$> ds)) =
  concat ((fun d => effects (call w port key (Host d) (User d))) <$> ds).
Proof.
  induction ds as [|d ds IH]; [done|].
  cbn [fmap list_fmap concat]. rewrite filter_app, unit_of_filter. by rewrite <- IH.
Qed.

Lemma sum_list_with_insert {A} (f : A -> nat) (l : list A) i x y :
  l !! i = Some x ->
  sum_list_with f (<[i:=y]> l) + f x = sum_list_with f l + f y.
Proof.
  intros H. pose proof (lookup_lt_Some _ _ _ H) as Hlt.
  rewrite insert_take_drop by done.
  rewrite <- (take_drop_middle l i _ H) at 3.
  rewrite !sum_list_with_app. simpl. lia.
Qed.

Lemma sum_list_with_pos {A} (f : A -> nat) (l : list A) :
  sum_list_with f l ≠ 0 -> ∃ i x, l !! i = Some x ∧ f x ≠ 0.
Proof.
  induction l as [|x l IH]; [done|]. simpl. intros H.
  destruct (decide (f x = 0)) as [Hx|Hx].
  - destruct IH as (i & y & Hi & Hy); [lia|]. by exists (S i), y.
  - by exists 0, x.
Qed.

Lemma sum_list_with_le_length {A} (f : A -> nat) (l : list A) :
  Forall (fun x => f x <= 1) l -> sum_list_with f l <= length l.
Proof. induction 1 as [|x l Hx _ IH]; simpl; lia. Qed.

(** A process that has not exited can take a step: [main] is never stuck
    in [wg.Wait()] with every goroutine at its end. *)
Lemma progress p :
  rtc (steps_to w port key) (fan_out dests) p ->
  exited p = None ->
  ∃ c p', step w port key c p = Some p'.
Proof.
  intros Hreach Hex. destruct (join_inv_reach _ _ _ _ _ Hreach) as [_ Hc _ _].
  unfold unspawned in Hc.
  destruct (pc p) as [[|d r]|] eqn:Hpc.
  - exists MainStep. unfold step. rewrite Hex, Hpc. by eexists.
  - exists MainStep. unfold step. rewrite Hex, Hpc. by eexists.
  - destruct (wg p =? 0)%Z eqn:Hz.
    + exists MainStep. unfold step. rewrite Hex, Hpc, Hz. by eexists.
    + apply Z.eqb_neq in Hz. cbn in Hc.
      destruct (sum_list_with_pos pending (gs p)) as (i & g & Hg & Hpend); [lia|].
      destruct g as [|e rest]; [done|].
      exists (GoStep i). unfold step. rewrite Hex, Hg. by eexists.
Qed.

(** Every step uses up some of the work left. *)
Lemma work_decreases c p p' :
  step w port key c p = Some p' ->
  work_left w port key p' < work_left w port key p.
Proof.
  unfold step. destruct (exited p) eqn:Hex; [done|].
  destruct c as [|i].
  - destruct (pc p) as [[|d r]|] eqn:Hpc.
    + intros [= <-]. unfold work_left. cbn. rewrite Hex, Hpc. lia.
    + intros [= <-]. unfold work_left. cbn [exited pc gs]. rewrite Hex, Hpc.
      rewrite sum_list_with_app. fold (unit_of w port key d). simpl. lia.
    + destruct (wg p =? 0)%Z; [|done]. intros [= <-]. unfold work_left. cbn.
      rewrite Hex. lia.
  - destruct (gs p !! i) as [[|e rest]|] eqn:Hg; try done.
    intros [= <-].
    destruct (apply_effect_fields e
                (mkProc (pc p) (wg p) (<[i:=rest]> (gs p)) (log p) None))
      as (Hpc' & Hgs' & _ & _ & _).
    cbn [pc gs] in Hpc', Hgs'.
    pose proof (sum_list_with_insert length (gs p) i (e :: rest) rest Hg) as Hsum.
    cbn [length] in Hsum.
    unfold work_left at 2. rewrite Hex.
    unfold work_left. destruct (exited (apply_effect e _)); [lia|].
    rewrite Hpc', Hgs'. lia.
Qed.

(** From every state of the fan-out some schedule leads to the exit. *)
Lemma completion p :
  rtc (steps_to w port key) (fan_out dests) p ->
  ∃ sched, exited (exec w port key sched p) ≠ None.
Proof.
  remember (work_left w port key p) as n eqn:Hn. revert p Hn.
  induction n as [n IH] using lt_wf_ind. intros p Hn Hreach.
  destruct (exited p) eqn:Hex.
  { exists []. cbn. congruence. }
  destruct (progress p Hreach Hex) as (c & p' & Hstep).
  destruct (IH (work_left w port key p')) with (p := p') as [sched Hs].
  - subst n. by eapply work_decreases.
  - done.
  - eapply rtc_r; [done|]. by exists c.
  - exists (c :: sched). cbn. by rewrite Hstep.
Qed.

Lemma exec_app sched1 sched2 : ∀ p,
  exec w port key (sched1 ++ sched2) p =
  exec w port key sched2 (exec w port key sched1 p).
Proof.
  induction sched1 as [|c s IH]; intros p; cbn; [done|].
  destruct (step w port key c p); apply IH.
Qed.

(** The counter of the WaitGroup is the number of goroutines still to be
    started plus the calls of [wg.Done()] still to come; no goroutine has
    more than one such call left. *)
Lemma counter_inv p :
  rtc (steps_to w port key) (fan_out dests) p ->
  wg p = Z.of_nat (length (unspawned p) + sum_list_with pending (gs p)) ∧
  length (unspawned p) + sum_list_with pending (gs p) <= length dests.
Proof.
  intros Hreach. destruct (join_inv_reach _ _ _ _ _ Hreach) as [Hs Hc _ Hcode].
  split; [done|].
  assert (sum_list_with pending (gs p) <= length (gs p)) as Hle.
  { apply sum_list_with_le_length, Forall_lookup. intros i g Hg.
    destruct (Hcode _ _ Hg) as (d & _ & [k Hk]).
    pose proof (pending_call w port key (Host d) (User d)) as H1.
    rewrite Hk, pending_app in H1. lia. }
  assert (length (gs p) + length (unspawned p) <= length dests); [|lia].
  rewrite <- Hs, length_drop.
  destruct (decide (length (gs p) <= length dests)) as [|Hgt]; [lia|].
  assert (is_Some (gs p !! length dests)) as [g Hg].
  { apply lookup_lt_is_Some. lia. }
  destruct (Hcode _ _ Hg) as (d & Hd & _).
  apply lookup_lt_Some in Hd. lia.
Qed.

End ProcHelpers2.

(** ** [main] under every schedule *)

Section MainHelpers.

Variable w : World.

Lemma line_append_nonempty s t : line s +:+ t ≠ "".
Proof. by destruct s. Qed.

(** The exits of [main] before the fan-out, one by one. *)
Lemma main_start_exits fl args code l :
  main_start w fl args = Exits code l ->
  (code = 0%Z ∧ help fl = true ∧ l = showUsage w) ∨
  (code = 1%Z ∧ help fl = false ∧
   ((length args ≠ 1 ∧ ∃ a b, l = [Stderr (line a); Stderr (line b)]) ∨
    (∃ path e, args = [path] ∧ l = [Stderr (line e)] ∧
       (loadDests w path = inr e ∨
        (privateKey fl = "" ∧ homedir_Dir w = inr e))))).
Proof.
  unfold main_start. destruct (help fl); [intros [= <- <-]; by left|].
  intros H. right.
  destruct args as [|path [|path' args]].
  - injection H as <- <-. split; [done|]. split; [done|]. left.
    split; [done|]. by eexists _, _.
  - destruct (loadDests w path) as [ds|e] eqn:Hl.
    + destruct (String.eqb_spec (privateKey fl) "") as [Hk|Hk]; [|done].
      destruct (homedir_Dir w) as [home|e] eqn:Hh; [done|].
      injection H as <- <-. split; [done|]. split; [done|]. right.
      exists path, e. split; [done|]. split; [done|]. by right.
    + injection H as <- <-. split; [done|]. split; [done|]. right.
      exists path, e. split; [done|]. split; [done|]. by left.
  - injection H as <- <-. split; [done|]. split; [done|]. left.
    split; [cbn; lia|]. by eexists _, _.
Qed.

End MainHelpers.

Section MainExtras.

Variable w : World.

(** The join barrier under every schedule: when [main] has returned with
    status 0 after the fan-out, one goroutine was started for each
    destination and each has run [call] to its end, the deferred
    [wg.Done()] included. *)
Theorem main_join fl args sched key prt dests :
  main_start w fl args = FansOut key prt dests ->
  exited (main w fl args sched) = Some 0%Z ->
  length (gs (main w fl args sched)) = length dests ∧
  Forall (fun g => g = [] ∨ g = [Fatal nilDeref]) (gs (main w fl args sched)).
Proof.
  unfold main. intros -> Hex.
  apply (join_barrier w prt key dests); [apply exec_reaches|done].
Qed.

(** Exit status 2 only comes from a destination whose [NewSession] failed,
    after the fan-out has begun; an error of the remote command alone never
    gives it. *)
Theorem main_exit_two fl args sched :
  exited (main w fl args sched) = Some 2%Z ->
  ∃ key prt dests d l e,
    main_start w fl args = FansOut key prt dests ∧ d ∈ dests ∧
    NewSession w (Host d) prt (User d) key = (l, Return (None, Some e)).
Proof.
  unfold main. destruct (main_start w fl args) as [code l|key prt dests] eqn:Hm.
  - cbn. intros [= ->]. apply main_start_exits in Hm. intuition discriminate.
  - intros Hex.
    destruct (exit_status_cases w prt key dests _ 2%Z (exec_reaches w prt key sched _) Hex)
      as [?|[_ (d & l & e & Hd & HN)]]; [done|].
    by exists key, prt, dests, d, l, e.
Qed.

(** Exit status 1 means that nothing was attempted: no goroutine was
    started, no step of a connection was taken, nothing was written to
    standard output and something was written to the error stream.  It
    happens without [-h] only: for a wrong number of arguments, a
    configuration file that does not load, or a default key path that cannot
    be resolved. *)
Theorem main_exit_one fl args sched :
  exited (main w fl args sched) = Some 1%Z ->
  help fl = false ∧
  gs (main w fl args sched) = [] ∧
  attempts (log (main w fl args sched)) = [] ∧
  stdout_of (log (main w fl args sched)) = "" ∧
  stderr_of (log (main w fl args sched)) ≠ "" ∧
  (length args ≠ 1 ∨
   ∃ path e, args = [path] ∧
     (loadDests w path = inr e ∨ (privateKey fl = "" ∧ homedir_Dir w = inr e))).
Proof.
  unfold main. destruct (main_start w fl args) as [code l|key prt dests] eqn:Hm.
  - cbn. intros [= ->].
    apply main_start_exits in Hm
      as [(? & _)|(_ & Hh & [(Hlen & a & b & ->)|(path & e & -> & -> & Hwhy)])];
      [done| |].
    + repeat split; try done; [apply line_append_nonempty|by left].
    + repeat split; try done; [apply line_append_nonempty|].
      right. by exists path, e.
  - intros Hex.
    destruct (exit_status_cases w prt key dests _ 1%Z (exec_reaches w prt key sched _) Hex)
      as [?|[? _]]; done.
Qed.

(** Every run can be completed: whatever has been scheduled so far, some
    further schedule brings the process to its exit.  In particular [main]
    is never stuck in [wg.Wait()]. *)
Theorem main_completes fl args sched :
  ∃ sched' code, exited (main w fl args (sched ++ sched')) = Some code.
Proof.
  unfold main. destruct (main_start w fl args) as [code l|key prt dests].
  - by exists [], code.
  - destruct (completion w prt key dests _ (exec_reaches w prt key sched _))
      as [sched' Hs].
    exists sched'. rewrite exec_app.
    destruct (exited _) as [code|]; [by exists code|done].
Qed.

(** The counter of the WaitGroup is, in every state, the number of
    goroutines [main] has still to start plus the number of started
    goroutines that have not yet called [wg.Done()]: it is never negative and
    never above the number of destinations. *)
Theorem main_counter fl args sched key prt dests :
  main_start w fl args = FansOut key prt dests ->
  wg (main w fl args sched) =
    Z.of_nat (length (unspawned (main w fl args sched)) +
              sum_list_with pending (gs (main w fl args sched))) ∧
  (0 <= wg (main w fl args sched) <= Z.of_nat (length dests))%Z.
Proof.
  unfold main. intros ->.
  destruct (counter_inv w prt key dests _ (exec_reaches w prt key sched _))
    as [Hwg Hle].
  split; [done|]. lia.
Qed.

(** The process only dials configured destinations: every dial in the log
    is to the host of a destination of the file, on the selected port, as
    the user of that destination. *)
Theorem main_dials fl args sched key prt dests i a u :
  main_start w fl args = FansOut key prt dests ->
  log (main w fl args sched) !! i = Some (DialTCP a u) ->
  ∃ d, d ∈ dests ∧ a = Host d +:+ ":" +:+ prt ∧ u = User d.
Proof.
  unfold main. intros -> Hi. apply list_elem_of_lookup_2 in Hi.
  destruct (log_inv_reach w prt key dests _ (exec_reaches w prt key sched _))
    as [Hperm _].
  assert (DialTCP a u ∈ concat (unit_of w prt key <$>
            take (length (gs (exec w prt key sched (fan_out dests)))) dests))
    as Hin.
  { rewrite <- Hperm. apply elem_of_app. by left. }
  apply elem_of_concat in Hin as (l & Hl & Hin).
  apply list_elem_of_fmap in Hl as (d & -> & Hd).
  apply subseteq_take in Hd.
  exists d. split; [done|]. by apply (dial_in_unit w prt key).
Qed.

(** What is done does not depend on the schedule, only its order does:
    when [main] has returned with status 0, the log holds, in some order,
    exactly the effects of [call] for every destination of the file. *)
Theorem main_log fl args sched key prt dests :
  main_start w fl args = FansOut key prt dests ->
  exited (main w fl args sched) = Some 0%Z ->
  log (main w fl args sched) ≡ₚ
    concat ((fun d => effects (call w prt key (Host d) (User d))) <$> dests).
Proof.
  unfold main. intros -> Hex.
  pose proof (exec_reaches w prt key sched (fan_out dests)) as Hreach.
  set (p := exec w prt key sched (fan_out dests)) in *.
  destruct (join_barrier w prt key dests p Hreach Hex) as [Hlen Hdone].
  destruct (log_inv_reach w prt key dests p Hreach) as [Hperm Hfatal].
  rewrite take_ge in Hperm by lia.
  rewrite <- (filter_units w prt key dests), <- Hperm, filter_app.
  rewrite (filter_all (fun e => is_fatal e = false) (log p)).
  2:{ apply Forall_forall. intros e He. destruct e; try done.
      specialize (Hfatal _ He). congruence. }
  rewrite (filter_none (fun e => is_fatal e = false) (concat (gs p))).
  2:{ apply Forall_forall. intros e He.
      apply elem_of_concat in He as (g & Hg & He).
      rewrite Forall_forall in Hdone. destruct (Hdone _ Hg) as [->| ->].
      - by apply elem_of_nil in He.
      - apply list_elem_of_singleton in He as ->. done. }
  by rewrite app_nil_r.
Qed.

End MainExtras.

(** ** The configuration file: members that are not fields *)

Lemma setFields_app fields1 fields2 : ∀ d,
  Json.setFields d (fields1 ++ fields2) =
  match Json.setFields d fields1 with
  | inl d' => Json.setFields d' fields2
  | inr e => inr e
  end.
Proof.
  induction fields1 as [|[k v] fields1 IH]; intros d; cbn; [done|].
  destruct (Json.setField d k v); [apply IH|done].
Qed.

(** A member whose key is neither host nor user (up to case) is ignored,
    whatever its value and wherever it stands in the object. *)
Theorem unknown_member_ignored fields1 fields2 k v :
  Json.selects "host" k = false ->
  Json.selects "user" k = false ->
  Json.unmarshalDest (Json.Object (fields1 ++ (k, v) :: fields2)) =
  Json.unmarshalDest (Json.Object (fields1 ++ fields2)).
Proof.
  intros Hh Hu. cbn [Json.unmarshalDest]. rewrite !setFields_app.
  destruct (Json.setFields _ fields1) as [d|e]; [|done].
  cbn [Json.setFields]. unfold Json.setField. by rewrite Hh, Hu.
Qed.

(** The witnesses of the further properties. *)
Lemma main_join_witness :
  exited (main Sample.w_all_up Sample.flags ["dests.json"] Sample.in_turn) =
    Some 0%Z ∧
  length (gs (main Sample.w_all_up Sample.flags ["dests.json"] Sample.in_turn)) = 2 ∧
  Forall (fun g => g = [] ∨ g = [Fatal nilDeref])
    (gs (main Sample.w_all_up Sample.flags ["dests.json"] Sample.in_turn)).
Proof.
  split; [reflexivity|].
  apply (main_join Sample.w_all_up Sample.flags ["dests.json"] Sample.in_turn
           "/k/id_rsa" "22" [mkDest "h1" "u1"; mkDest "h2" "u2"]); reflexivity.
Defined.

Lemma main_exit_two_witness :
  exited (main Sample.w_h2_down Sample.flags ["dests.json"] Sample.h2_first) =
    Some 2%Z ∧
  ∃ key prt dests d l e,
    main_start Sample.w_h2_down Sample.flags ["dests.json"] =
      FansOut key prt dests ∧ d ∈ dests ∧
    NewSession Sample.w_h2_down (Host d) prt (User d) key =
      (l, Return (None, Some e)).
Proof.
  split; [reflexivity|].
  apply (main_exit_two Sample.w_h2_down Sample.flags ["dests.json"] Sample.h2_first).
  reflexivity.
Defined.

Lemma main_exit_one_witness :
  exited (main Sample.w_syntax_error Sample.flags ["dests.json"] [MainStep]) =
    Some 1%Z ∧
  (help Sample.flags = false ∧
   gs (main Sample.w_syntax_error Sample.flags ["dests.json"] [MainStep]) = [] ∧
   attempts (log (main Sample.w_syntax_error Sample.flags ["dests.json"]
                    [MainStep])) = [] ∧
   stdout_of (log (main Sample.w_syntax_error Sample.flags ["dests.json"]
                     [MainStep])) = "" ∧
   stderr_of (log (main Sample.w_syntax_error Sample.flags ["dests.json"]
                     [MainStep])) ≠ "" ∧
   (length ["dests.json"] ≠ 1 ∨
    ∃ path e, ["dests.json"] = [path] ∧
      (loadDests Sample.w_syntax_error path = inr e ∨
       (privateKey Sample.flags = "" ∧
        homedir_Dir Sample.w_syntax_error = inr e)))).
Proof.
  split; [reflexivity|].
  apply (main_exit_one Sample.w_syntax_error Sample.flags ["dests.json"] [MainStep]).
  reflexivity.
Defined.

Lemma main_counter_witness :
  main_start Sample.w_h2_down Sample.flags ["dests.json"] =
    FansOut "/k/id_rsa" "22" [mkDest "h1" "u1"; mkDest "h2" "u2"] ∧
  (wg (main Sample.w_h2_down Sample.flags ["dests.json"]
         [MainStep; GoStep 0; GoStep 0]) =
     Z.of_nat
       (length (unspawned (main Sample.w_h2_down Sample.flags ["dests.json"]
                             [MainStep; GoStep 0; GoStep 0])) +
        sum_list_with pending
          (gs (main Sample.w_h2_down Sample.flags ["dests.json"]
                 [MainStep; GoStep 0; GoStep 0]))) ∧
   (0 <= wg (main Sample.w_h2_down Sample.flags ["dests.json"]
               [MainStep; GoStep 0; GoStep 0]) <= 2)%Z).
Proof.
  split; [reflexivity|].
  apply (main_counter Sample.w_h2_down Sample.flags ["dests.json"]
           [MainStep; GoStep 0; GoStep 0] "/k/id_rsa" "22"
           [mkDest "h1" "u1"; mkDest "h2" "u2"]).
  reflexivity.
Defined.

Lemma main_dials_witness :
  log (main Sample.w_h2_down Sample.flags ["dests.json"] Sample.h2_first) !! 1 =
    Some (DialTCP "h2:22" "u2") ∧
  ∃ d, d ∈ [mkDest "h1" "u1"; mkDest "h2" "u2"] ∧
       "h2:22" = Host d +:+ ":" +:+ "22" ∧ "u2" = User d.
Proof.
  split; [reflexivity|].
  apply (main_dials Sample.w_h2_down Sample.flags ["dests.json"] Sample.h2_first
           "/k/id_rsa" "22" [mkDest "h1" "u1"; mkDest "h2" "u2"] 1); reflexivity.
Defined.

Lemma main_log_witness :
  exited (main Sample.w_all_up Sample.flags ["dests.json"] Sample.in_turn) =
    Some 0%Z ∧
  log (main Sample.w_all_up Sample.flags ["dests.json"] Sample.in_turn) ≡ₚ
    concat ((fun d => effects (call Sample.w_all_up "22" "/k/id_rsa" (Host d) (User d)))
              <$> [mkDest "h1" "u1"; mkDest "h2" "u2"]).
Proof.
  split; [reflexivity|].
  apply (main_log Sample.w_all_up Sample.flags ["dests.json"] Sample.in_turn
           "/k/id_rsa" "22" [mkDest "h1" "u1"; mkDest "h2" "u2"]); reflexivity.
Defined.

Lemma unknown_member_ignored_witness :
  Json.selects "host" "port" = false ∧
  Json.selects "user" "port" = false ∧
  Json.unmarshalDest
    (Json.Object ([("host", Json.Str "h1")] ++
                  ("port", Json.Number "2222") :: [("user", Json.Str "u1")])) =
  Json.unmarshalDest
    (Json.Object ([("host", Json.Str "h1")] ++ [("user", Json.Str "u1")])).
Proof.
  split; [reflexivity|]. split; [reflexivity|].
  apply (unknown_member_ignored [("host", Json.Str "h1")]
           [("user", Json.Str "u1")] "port" (Json.Number "2222")); reflexivity.
Defined.

(** What follows the first JSON value of the file has no influence on the
    run. *)
Lemma main_ignores_rest w rest fl args sched :
  main (Sample.followed_by rest w) fl args sched = main w fl args sched.
Proof. reflexivity. Qed.
